(** * Fixed-income pricing library: a shallow embedding of
      [library/pricing.py] and [library/yield.py]

    The Python code computes on numpy [float64] values.  They are
    embedded as exact rationals ([Q]) extended with the three special
    values that the code can produce by dividing by zero ([+inf],
    [-inf], [nan]); rounding error, overflow and signed zeros of the
    binary format are not part of the embedding.  Arguments are Python
    numbers or lists of numbers (0-d and 1-d arrays), tenors are
    integers and dates are day numbers.  Python exceptions are an
    explicit result ([Raise]), the strings that the functions return on
    a failed check are a constructor of the returned value, and the text
    written by [print] is a log of report rows.

    Where a statement depends on the rounding of float64 arithmetic, the
    code is embedded a second time on the binary64 numbers of the kernel
    ([Binary64]: the price on a settlement date and its callees), with
    the operations in the order in which numpy performs them. *)

From Stdlib Require Import ZArith QArith Qround Qpower Qabs List String Ascii Bool Lia Lqa.
From Stdlib Require Import Sorting.Mergesort Sorting.Sorted Sorting.Permutation.
From Stdlib Require Floats.
Import ListNotations.

Local Open Scope Z_scope.

(** ** float64 values *)

Module Float.

Inductive F : Type :=
| Fin (q : Q)
| PInf
| NInf
| NaN.

Definition isnan (x : F) : bool :=
  match x with NaN => true | _ => false end.

Definition is_finite (x : F) : bool :=
  match x with Fin _ => true | _ => false end.

Definition Qzero (q : Q) : bool := Qeq_bool q 0.
Definition Qneg (q : Q) : bool := negb (Qle_bool 0 q).
Definition Qpos (q : Q) : bool := negb (Qle_bool q 0).

Definition inf_of (negative : bool) : F := if negative then NInf else PInf.

Definition Fopp (x : F) : F :=
  match x with
  | Fin q => Fin (- q)
  | PInf => NInf
  | NInf => PInf
  | NaN => NaN
  end.

Definition Fadd (x y : F) : F :=
  match x, y with
  | NaN, _ | _, NaN => NaN
  | Fin a, Fin b => Fin (a + b)
  | PInf, NInf | NInf, PInf => NaN
  | PInf, _ | _, PInf => PInf
  | NInf, _ | _, NInf => NInf
  end.

Definition Fsub (x y : F) : F := Fadd x (Fopp y).

(* 0 * inf is nan; otherwise the sign rule. *)
Definition Fmul (x y : F) : F :=
  match x, y with
  | NaN, _ | _, NaN => NaN
  | Fin a, Fin b => Fin (a * b)
  | Fin a, PInf | PInf, Fin a => if Qzero a then NaN else inf_of (Qneg a)
  | Fin a, NInf | NInf, Fin a => if Qzero a then NaN else inf_of (negb (Qneg a))
  | PInf, PInf | NInf, NInf => PInf
  | PInf, NInf | NInf, PInf => NInf
  end.

(* numpy does not raise on a float division by zero: 0/0 is nan and
   a/0 is an infinity of the sign of a. *)
Definition Fdiv (x y : F) : F :=
  match x, y with
  | NaN, _ | _, NaN => NaN
  | Fin a, Fin b =>
      if Qzero b then (if Qzero a then NaN else inf_of (Qneg a))
      else Fin (a / b)
  | Fin _, _ => Fin 0
  | PInf, Fin b => inf_of (Qneg b)
  | NInf, Fin b => inf_of (negb (Qneg b))
  | _, _ => NaN
  end.

(* np.power(x, n) for a finite base and an integral exponent. *)
Definition np_power (x : Q) (n : Z) : F :=
  if Qzero x then
    match n with
    | Z0 => Fin 1
    | Zpos _ => Fin 0
    | Zneg _ => PInf
    end
  else Fin (x ^ n).

(* np.rint: to the nearest integer, ties to the even one. *)
Definition rint (q : Q) : Z :=
  let f := Qfloor q in
  let r := (q - inject_Z f)%Q in
  match (r ?= 1 # 2)%Q with
  | Lt => f
  | Gt => f + 1
  | Eq => if Z.even f then f else f + 1
  end.

(* np.round(x, decimals=2): multiply by 100, rint, divide by 100. *)
Definition np_round2 (x : F) : F :=
  match x with
  | Fin q => Fin (inject_Z (rint (q * 100)) / 100)
  | _ => x
  end.

(* x == y on floats: nan is different from everything. *)
Definition Feqb (x y : F) : bool :=
  match x, y with
  | Fin a, Fin b => Qeq_bool a b
  | PInf, PInf | NInf, NInf => true
  | _, _ => false
  end.

(* x < y on floats: false as soon as one side is nan. *)
Definition Fltb (x y : F) : bool :=
  match x, y with
  | Fin a, Fin b => negb (Qle_bool b a)
  | Fin _, PInf | NInf, Fin _ | NInf, PInf => true
  | _, _ => false
  end.

(* The order of np.sort and np.searchsorted: nan after everything. *)
Definition sort_lt (x y : F) : bool :=
  Fltb x y || (isnan y && negb (isnan x)).

Definition sort_le (x y : F) : bool := negb (sort_lt y x).

(* Equality of float values as numbers. *)
Definition Feq (x y : F) : Prop :=
  match x, y with
  | Fin a, Fin b => (a == b)%Q
  | PInf, PInf | NInf, NInf | NaN, NaN => True
  | _, _ => False
  end.

End Float.
Import Float.

Infix "=f=" := Feq (at level 70, no associativity).

(** ** Arrays, exceptions and the report log *)

(* np.array(x): a Python number becomes a 0-d array ([Scalar]), a list
   a 1-d array ([Vec]). *)
Inductive nd (A : Type) : Type :=
| Scalar (a : A)
| Vec (l : list A).
Arguments Scalar {A} a.
Arguments Vec {A} l.

Definition size {A} (x : nd A) : nat :=
  match x with Scalar _ => 1%nat | Vec l => List.length l end.

Definition ndmap {A B} (f : A -> B) (x : nd A) : nd B :=
  match x with Scalar a => Scalar (f a) | Vec l => Vec (map f l) end.

Inductive exn : Type :=
| IndexError | ValueError | TypeError | AttributeError | AxisError.

Inductive outcome (A : Type) : Type :=
| Ok (a : A)
| Raise (e : exn).
Arguments Ok {A} a.
Arguments Raise {A} e.

(* What reaches the console: a row per print call (its fixed text and
   the values formatted into it) and the calls of np.set_printoptions. *)
Inductive event : Type :=
| Print (label : string) (values : list (nd F))
| SetPrintoptions (precision : Z).

Definition M (A : Type) : Type := (list event * outcome A)%type.

Definition ret {A} (a : A) : M A := ([], Ok a).
Definition raise {A} (e : exn) : M A := ([], Raise e).
Definition emit (ev : event) : M unit := ([ev], Ok tt).

Definition bind {A B} (m : M A) (k : A -> M B) : M B :=
  match m with
  | (out, Ok a) => let (out', r) := k a in (out ++ out', r)
  | (out, Raise e) => (out, Raise e)
  end.

(* try: body except: handler (a bare except catches every exception). *)
Definition try_except {A} (body : M A) (handler : M A) : M A :=
  match body with
  | (out, Raise _) => let (out', r) := handler in (out ++ out', r)
  | _ => body
  end.

Definition output {A} (m : M A) : list event := fst m.
Definition value {A} (m : M A) : outcome A := snd m.

Declare Scope py_scope.
Delimit Scope py_scope with py.
Notation "x <- m ;; k" := (bind m (fun x => k))
  (at level 61, m at next level, right associativity) : py_scope.
Notation "m ;;; k" := (bind m (fun _ => k))
  (at level 61, right associativity) : py_scope.
Local Open Scope py_scope.

(* Element-wise binary operation with numpy's broadcasting of 0-d and
   1-d operands; shapes that do not broadcast raise ValueError. *)
Definition broadcast2 {A B C} (f : A -> B -> C) (x : nd A) (y : nd B) : M (nd C) :=
  match x, y with
  | Scalar a, Scalar b => ret (Scalar (f a b))
  | Scalar a, Vec l => ret (Vec (map (f a) l))
  | Vec l, Scalar b => ret (Vec (map (fun a => f a b) l))
  | Vec l1, Vec l2 =>
      if Nat.eqb (List.length l1) (List.length l2) then
        ret (Vec (map (fun ab => f (fst ab) (snd ab)) (combine l1 l2)))
      else match l1, l2 with
           | [a], _ => ret (Vec (map (f a) l2))
           | _, [b] => ret (Vec (map (fun a => f a b) l1))
           | _, _ => raise ValueError
           end
  end.

(* '{:.2f}'.format(x): ndarray.__format__ forwards a 0-d array to its
   item, and raises TypeError for a format spec on any other array. *)
Definition format_2f {A} (x : nd A) : M (nd A) :=
  match x with
  | Scalar _ => ret x
  | Vec _ => raise TypeError
  end.

Definition ofQ (x : nd Q) : nd F := ndmap Fin x.
Definition ofZ (x : nd Z) : nd F := ndmap (fun z => Fin (inject_Z z)) x.

(** ** Strings *)

Definition lower_ascii (c : ascii) : ascii :=
  let n := nat_of_ascii c in
  if (Nat.leb 65 n && Nat.leb n 90)%bool then ascii_of_nat (n + 32) else c.

(* str.lower() on ASCII text. *)
Fixpoint lower (s : string) : string :=
  match s with
  | EmptyString => EmptyString
  | String c s' => String (lower_ascii c) (lower s')
  end.

(* The value of [s[i]] for a str [s]: the one-character string. *)
Definition str_index (s : string) (i : nat) : M string :=
  match String.get i s with
  | Some c => ret (String c EmptyString)
  | None => raise IndexError
  end.

(** ** pricing.py: cash flows and the price on a coupon date *)

(* np.where(r > 1, np.divide(r, 100), r) *)
Definition rate_format (r : Q) : Q :=
  if negb (Qle_bool r 1) then (r / 100)%Q else r.

Inductive cash_flow_result : Type :=
| CFMsg (s : string)
| CashFlow (coupon_per par_val : nd Q) (bond_len : nd Z).

Definition bond_cash_flow_calc (bond_len : nd Z) (coupon_per par_val : nd Q)
  (len_time : string) (details : bool) : M cash_flow_result :=
  if (negb (Nat.eqb (size bond_len) (size coupon_per))
      || negb (Nat.eqb (size coupon_per) (size par_val)))%bool
  then ret (CFMsg "Incorrect argument dimensions")
  else if negb (String.eqb (lower len_time) "semiannual"
                || String.eqb (lower len_time) "annual")%bool
  then ret (CFMsg "Incorrect period length description")
  else
    let period := if String.eqb (lower len_time) "semiannual" then 2 else 1 in
    let bond_len := ndmap (fun n => n * period) bond_len in
    let coupon_per := ndmap (fun c => (c / inject_Z period)%Q) coupon_per in
    let coupon_per := ndmap rate_format coupon_per in
    coupon_per <- broadcast2 Qmult par_val coupon_per ;;
    (if details then
       if Nat.eqb (size bond_len) 1 then
         c <- format_2f coupon_per ;;
         emit (Print "Coupon Rate" [ofQ c; ofZ bond_len]) ;;;
         p <- format_2f par_val ;;
         emit (Print "Maturity Value" [ofQ p])
       else
         emit (SetPrintoptions 2) ;;;
         emit (Print "Coupon Rate" [ofQ coupon_per; ofZ bond_len]) ;;;
         emit (Print "Maturity Value" [ofQ par_val])
     else ret tt) ;;;
    ret (CashFlow coupon_per par_val bond_len).

Inductive price_result : Type :=
| PMsg (s : string)
| Prices (coupon_pay_price par_val_price bond_price : nd F).

(* np.divide(1, np.power(np.add(1, req_yield_per), bond_len)) *)
Definition discount_factor (req_yield_per : nd Q) (bond_len : nd Z) : M (nd F) :=
  pw <- broadcast2 np_power (ndmap (fun y => (1 + y)%Q) req_yield_per) bond_len ;;
  ret (ndmap (Fdiv (Fin 1)) pw).

(* Lines 107-109: the three rounded present values. *)
Definition present_values (coupon_pay par_val : nd Q) (req_yield_per : nd Q)
  (bond_len : nd Z) : M (nd F * nd F * nd F) :=
  df <- discount_factor req_yield_per bond_len ;;
  annuity <- broadcast2 Fdiv (ndmap (Fsub (Fin 1)) df) (ofQ req_yield_per) ;;
  cp <- broadcast2 Fmul (ofQ coupon_pay) annuity ;;
  let coupon_pay_price := ndmap np_round2 cp in
  df' <- discount_factor req_yield_per bond_len ;;
  pp <- broadcast2 Fmul (ofQ par_val) df' ;;
  let par_val_price := ndmap np_round2 pp in
  total <- broadcast2 Fadd coupon_pay_price par_val_price ;;
  ret (coupon_pay_price, par_val_price, ndmap np_round2 total).

Definition bond_price_calc (bond_len : nd Z) (coupon_per par_val req_yield_per : nd Q)
  (call_val : Q) (len_time : string) (details : bool) : M price_result :=
  if (negb (Nat.eqb (size bond_len) (size coupon_per))
      || negb (Nat.eqb (size coupon_per) (size par_val)))%bool
  then ret (PMsg "Incorrect argument dimensions")
  else if negb (String.eqb (lower len_time) "semiannual"
                || String.eqb (lower len_time) "annual")%bool
  then ret (PMsg "Incorrect period length description")
  else
    let p1 := if String.eqb (lower len_time) "semiannual" then 2 else 0 in
    let p2 := if String.eqb (lower len_time) "annual" then 1 else 0 in
    let period := p1 + p2 in
    let bond_len := ndmap (fun n => n * period) bond_len in
    let coupon_per := ndmap (fun c => (c / inject_Z period)%Q) coupon_per in
    let req_yield_per := ndmap (fun y => (y / inject_Z period)%Q) req_yield_per in
    let coupon_per := ndmap rate_format coupon_per in
    let req_yield_per := ndmap rate_format req_yield_per in
    cf <- bond_cash_flow_calc bond_len coupon_per par_val "annual" details ;;
    match cf with
    | CFMsg _ =>
        (* the two characters of the slice are not numbers *)
        raise TypeError
    | CashFlow coupon_pay par_val _ =>
        let par_val :=
          if Qpos call_val then ndmap (fun _ => call_val) par_val else par_val in
        pv <- present_values coupon_pay par_val req_yield_per bond_len ;;
        let '(coupon_pay_price, par_val_price, bond_price) := pv in
        (if details then
           if (Nat.eqb (size bond_len) 1 && Nat.eqb (size req_yield_per) 1)%bool then
             c <- format_2f coupon_pay_price ;;
             emit (Print "Present Value of Coupon Payment" [c]) ;;;
             p <- format_2f par_val_price ;;
             emit (Print "Present Value of Par/Maturity Value" [p]) ;;;
             b <- format_2f bond_price ;;
             emit (Print "Present Value of Bond" [b])
           else
             emit (SetPrintoptions 2) ;;;
             emit (Print "Present Value of Coupon Payment" [coupon_pay_price]) ;;;
             emit (Print "Present Value of Par/Maturity Value" [par_val_price]) ;;;
             emit (Print "Present Value of Bond" [bond_price])
         else ret tt) ;;;
        ret (Prices coupon_pay_price par_val_price bond_price)
    end.

(** ** numpy datetime64 and timedelta64 *)

Module Calendar.

(* A datetime64[D] is a count of days since 1970-01-01, a datetime64[M]
   a count of months since 1970-01 (proleptic Gregorian calendar). *)
Definition days_from_civil (y m d : Z) : Z :=
  let y' := if m <=? 2 then y - 1 else y in
  let era := y' / 400 in
  let yoe := y' - era * 400 in
  let mp := if m >? 2 then m - 3 else m + 9 in
  let doy := (153 * mp + 2) / 5 + d - 1 in
  let doe := yoe * 365 + yoe / 4 - yoe / 100 + doy in
  era * 146097 + doe - 719468.

Definition civil_from_days (z : Z) : Z * Z * Z :=
  let z := z + 719468 in
  let era := z / 146097 in
  let doe := z - era * 146097 in
  let yoe := (doe - doe / 1460 + doe / 36524 - doe / 146096) / 365 in
  let doy := doe - (365 * yoe + yoe / 4 - yoe / 100) in
  let mp := (5 * doy + 2) / 153 in
  let d := doy - (153 * mp + 2) / 5 + 1 in
  let m := if mp <? 10 then mp + 3 else mp - 9 in
  let y := yoe + era * 400 in
  (if m <=? 2 then y + 1 else y, m, d).

(* np.datetime64(d, 'M') *)
Definition to_month (d : Z) : Z :=
  let '(y, m, _) := civil_from_days d in (y - 1970) * 12 + (m - 1).

(* np.datetime64(m, 'D'): the first day of the month *)
Definition month_to_day (m : Z) : Z :=
  days_from_civil (1970 + m / 12) (m mod 12 + 1) 1.

(* timedelta64[D].astype('timedelta64[M]'): numpy converts with the
   mean month of the 400-year cycle, 146097/4800 days, rounding down. *)
Definition days_to_months (n : Z) : Z := (n * 4800) / 146097.

End Calendar.
Import Calendar.

(** ** pricing.py: day counts and the price on a settlement date *)

(* [period] is the number of months of a coupon period. *)
Definition next_pay_date_calc (sd1 md2 period : Z) : Z * Z * Z :=
  let days_remaining := month_to_day (to_month sd1 + 1) - 1 - sd1 in
  let time_diff := (days_to_months (md2 - sd1)) mod period in
  let time_diff := if days_remaining >? 0 then time_diff + 1 else time_diff in
  (month_to_day (to_month sd1 + time_diff), days_remaining, time_diff).

Definition FZ (z : Z) : F := Fin (inject_Z z).

Definition thirtysixty_time_ratio_calc (sd1 dr2 td3 period : Z) : F * F :=
  let days_passed := sd1 - (month_to_day (to_month sd1) - 1) in
  let days_remaining :=
    if dr2 + days_passed >? 30 then 30 - days_passed else dr2 in
  let numer := (td3 - 1) * 30 + days_remaining + 1 in
  let denom := 30 * period in
  (Fdiv (FZ numer) (FZ denom), Fdiv (FZ (denom - numer)) (FZ denom)).

Definition actual_time_ratio_calc (nd1 sd2 period : Z) : F * F :=
  let numer := nd1 - sd2 in
  let denom := nd1 - month_to_day (to_month nd1 - 6) in
  (Fdiv (FZ numer) (FZ denom), Fdiv (FZ (denom - numer)) (FZ denom)).

Inductive ratio_result : Type :=
| RMsg (s : string)
| Ratios (time_ratio ai_ratio : F).

(* [period] is the number of coupons per year; the callers pass 1 or 2,
   for which np.divide(12.0, period) is the integer 12 / period. *)
Definition time_ratio_calc (mat_date sett_date period : Z)
  (date_calc len_time : string) : ratio_result :=
  if mat_date <=? sett_date then
    RMsg "Settlement cannot come after maturity of bond!"
  else if negb (String.eqb (lower date_calc) "3060"
                || String.eqb (lower date_calc) "actual")%bool then
    RMsg "Incorrect description for timing calculation"
  else
    let '(next_pay_date, days_remaining, time_diff) :=
      next_pay_date_calc sett_date mat_date (12 / period) in
    let r3060 := thirtysixty_time_ratio_calc sett_date days_remaining time_diff (12 / period) in
    let ract := actual_time_ratio_calc next_pay_date sett_date (12 / period) in
    let time_ratio_3060 := if String.eqb date_calc "3060" then fst r3060 else Fin 0 in
    let ai_ratio_3060 := if String.eqb date_calc "3060" then snd r3060 else Fin 0 in
    let time_ratio_actual := if String.eqb date_calc "actual" then fst ract else Fin 0 in
    let ai_ratio_actual := if String.eqb date_calc "actual" then snd ract else Fin 0 in
    let time_ratio := Fadd time_ratio_3060 time_ratio_actual in
    let ai_ratio := Fadd ai_ratio_3060 ai_ratio_actual in
    if Feqb time_ratio (Fin 0) then RMsg "Incorrect timing calculated"
    else Ratios time_ratio ai_ratio.

(* A Python value that is a str or a float. *)
Inductive str_or_float : Type :=
| IsStr (s : string)
| IsFloat (x : F).

(* time_ratio_calc(...)[i] for i = 0, 1: an element of the returned
   tuple, or a character of the returned message. *)
Definition ratio_index (r : ratio_result) (i : nat) : M str_or_float :=
  match r with
  | RMsg s => c <- str_index s i ;; ret (IsStr c)
  | Ratios t a => ret (IsFloat (if Nat.eqb i 0 then t else a))
  end.

(* float.is_integer() *)
Definition is_integer (x : F) : bool :=
  match x with
  | Fin q => Z.eqb (Qnum q mod Zpos (Qden q)) 0
  | _ => false
  end.

(* np.sum *)
Definition np_sum (l : list F) : F := fold_left Fadd l (Fin 0).

(* a[-1] = f(a[-1]) on a non-empty array *)
Fixpoint update_last {A} (f : A -> A) (l : list A) : list A :=
  match l with
  | [] => []
  | [x] => [f x]
  | x :: l' => x :: update_last f l'
  end.

Inductive sett_result : Type :=
| SMsg (s : string)
| SPrice (x : F).

Section Settlement.

(* [bond_len] holds np.datetime64(bond_len[0]) and
   np.datetime64(bond_len[1]), the maturity and the settlement date. *)

(* np.power on two float64 values; the exponents of the settlement-date
   price are fractional, so the value is not a rational in general. *)
Variable power : F -> F -> F.

Definition bond_price_calc_sett (bond_len : Z * Z) (coupon_per par_val req_yield_per : Q)
  (price date_calc len_time : string) (details : bool) : M sett_result :=
  let mat_date := fst bond_len in
  let sett_date := snd bond_len in
  if negb (String.eqb (lower len_time) "semiannual"
           || String.eqb (lower len_time) "annual")%bool
  then ret (SMsg "Incorrect period length description")
  else if negb (String.eqb (lower price) "clean"
                || String.eqb (lower price) "dirty")%bool
  then ret (SMsg "Incorrect price description")
  else
    let p1 := if String.eqb (lower len_time) "semiannual" then 2 else 0 in
    let p2 := if String.eqb (lower len_time) "annual" then 1 else 0 in
    let period := p1 + p2 in
    (* np.ceil of months / (12 / period) *)
    let bond_len := - ((- days_to_months (mat_date - sett_date)) / (12 / period)) in
    let coupon_per := (coupon_per / inject_Z period)%Q in
    let req_yield_per := (req_yield_per / inject_Z period)%Q in
    let coupon_per := rate_format coupon_per in
    let req_yield_per := rate_format req_yield_per in
    time_ratio <- ratio_index (time_ratio_calc mat_date sett_date period date_calc len_time) 0 ;;
    ai_ratio <- ratio_index (time_ratio_calc mat_date sett_date period date_calc len_time) 1 ;;
    match time_ratio, ai_ratio with
    | IsStr s, _ => ret (SMsg s)
    | IsFloat _, IsStr _ => raise TypeError
    | IsFloat time_ratio, IsFloat ai_ratio =>
        cf <- bond_cash_flow_calc (Scalar bond_len) (Scalar coupon_per) (Scalar par_val)
                "annual" details ;;
        match cf with
        | CFMsg _ | CashFlow (Vec _) _ _ => raise TypeError
        | CashFlow (Scalar coupon_pay) _ _ =>
            let bond_len := if is_integer time_ratio then bond_len + 1 else bond_len in
            let periods :=
              map (fun i => Fadd (FZ (Z.of_nat i)) time_ratio) (seq 0 (Z.to_nat bond_len)) in
            if bond_len <? 0 then raise ValueError else
            let coupon_pay := repeat (Fin coupon_pay) (Z.to_nat bond_len) in
            match coupon_pay with
            | [] => raise IndexError
            | c0 :: _ =>
                let ai_price := Fmul c0 ai_ratio in
                let coupon_pay := update_last (fun c => Fadd c (Fin par_val)) coupon_pay in
                let bond_price :=
                  map (fun cp => Fdiv (fst cp) (power (Fin (1 + req_yield_per)) (snd cp)))
                      (combine coupon_pay periods) in
                match bond_price with
                | [] => raise IndexError
                | b0 :: rest =>
                    let bond_price :=
                      (if String.eqb (lower price) "clean" then Fsub b0 ai_price else b0)
                        :: rest in
                    (if details then
                       emit (Print "Accrued Interest" [Scalar ai_price]) ;;;
                       emit (Print "Period, Coupon Payment Scheduled, Bond Price"
                               [Vec periods; Vec coupon_pay; Vec bond_price]) ;;;
                       (if String.eqb (lower price) "clean" then
                          emit (Print "Present Clean Value of Bond" [Scalar (np_sum bond_price)])
                        else ret tt) ;;;
                       (if String.eqb (lower price) "dirty" then
                          emit (Print "Present Dirty Value of Bond" [Scalar (np_sum bond_price)])
                        else ret tt)
                     else ret tt) ;;;
                    ret (SPrice (np_sum bond_price))
                end
            end
        end
    end.

End Settlement.

(** ** pricing.py on binary64: the price on a settlement date *)

Module Binary64.
Import Floats.

(* float(z) for an integer z: the nearest float64, ties to even; exact
   for magnitudes up to 2^53. *)
Definition of_Z (z : Z) : float :=
  SF2Prim (binary_normalize prec emax z 0 false).

(* The number that a float64 holds (the sign of a zero is dropped). *)
Definition exact (x : float) : F :=
  match Prim2SF x with
  | S754_zero _ => Float.Fin 0
  | S754_infinity false => Float.PInf
  | S754_infinity true => Float.NInf
  | S754_nan => Float.NaN
  | S754_finite s m e =>
      Float.Fin ((if s then - inject_Z (Zpos m) else inject_Z (Zpos m)) * 2 ^ e)%Q
  end.

(* float.is_integer() *)
Definition is_integer (x : float) : bool :=
  match Prim2SF x with
  | S754_zero _ => true
  | S754_finite _ m e => (0 <=? e) || (Zpos m mod 2 ^ (- e) =? 0)
  | _ => false
  end.

(* np.ceil (a result zero is returned as +0.0) *)
Definition np_ceil (x : float) : float :=
  match Prim2SF x with
  | S754_finite s m e =>
      if 0 <=? e then x
      else of_Z (if s then - (Zpos m / 2 ^ (- e)) else - ((- Zpos m) / 2 ^ (- e)))
  | _ => x
  end.

(* ndarray.astype(int): the fractional part is dropped; nan, the
   infinities and values outside int64 give the minimal int64 (x86-64). *)
Definition astype_int (x : float) : Z :=
  match Prim2SF x with
  | S754_zero _ => 0
  | S754_finite s m e =>
      let a := if 0 <=? e then Zpos m * 2 ^ e else Zpos m / 2 ^ (- e) in
      let z := if s then - a else a in
      if (- 2 ^ 63 <=? z) && (z <? 2 ^ 63) then z else - 2 ^ 63
  | _ => - 2 ^ 63
  end.

(* np.where(r > 1, np.divide(r, 100), r) *)
Definition rate_format (r : float) : float :=
  if (1 <? r)%float then (r / 100)%float else r.

Inductive cash_flow_result : Type :=
| CFMsg (s : string)
| CashFlow (coupon_per par_val bond_len : nd float).

Definition report (x : nd float) : nd F := ndmap exact x.

(* bond_cash_flow_calc on float64 arrays. *)
Definition bond_cash_flow_calc (bond_len coupon_per par_val : nd float)
  (len_time : string) (details : bool) : M cash_flow_result :=
  if (negb (Nat.eqb (size bond_len) (size coupon_per))
      || negb (Nat.eqb (size coupon_per) (size par_val)))%bool
  then ret (CFMsg "Incorrect argument dimensions")
  else if negb (String.eqb (lower len_time) "semiannual"
                || String.eqb (lower len_time) "annual")%bool
  then ret (CFMsg "Incorrect period length description")
  else
    let period := if String.eqb (lower len_time) "semiannual" then 2 else 1 in
    let bond_len := ndmap (fun n => (n * of_Z period)%float) bond_len in
    let coupon_per := ndmap (fun c => (c / of_Z period)%float) coupon_per in
    let coupon_per := ndmap rate_format coupon_per in
    coupon_per <- broadcast2 PrimFloat.mul par_val coupon_per ;;
    (if details then
       if Nat.eqb (size bond_len) 1 then
         c <- format_2f coupon_per ;;
         emit (Print "Coupon Rate" [report c; report bond_len]) ;;;
         p <- format_2f par_val ;;
         emit (Print "Maturity Value" [report p])
       else
         emit (SetPrintoptions 2) ;;;
         emit (Print "Coupon Rate" [report coupon_per; report bond_len]) ;;;
         emit (Print "Maturity Value" [report par_val])
     else ret tt) ;;;
    ret (CashFlow coupon_per par_val bond_len).

(* The day counts are integers far below 2^53, where float64 arithmetic
   is exact: they are kept as integers up to the two divisions. *)
Definition thirtysixty_time_ratio_calc (sd1 dr2 td3 period : Z) : float * float :=
  let days_passed := sd1 - (month_to_day (to_month sd1) - 1) in
  let days_remaining :=
    if dr2 + days_passed >? 30 then 30 - days_passed else dr2 in
  let numer := (td3 - 1) * 30 + days_remaining + 1 in
  let denom := 30 * period in
  ((of_Z numer / of_Z denom)%float, (of_Z (denom - numer) / of_Z denom)%float).

Definition actual_time_ratio_calc (nd1 sd2 period : Z) : float * float :=
  let numer := nd1 - sd2 in
  let denom := nd1 - month_to_day (to_month nd1 - 6) in
  ((of_Z numer / of_Z denom)%float, (of_Z (denom - numer) / of_Z denom)%float).

Inductive ratio_result : Type :=
| RMsg (s : string)
| Ratios (time_ratio ai_ratio : float).

(* [period] is the number of coupons per year, 1 or 2. *)
Definition time_ratio_calc (mat_date sett_date period : Z)
  (date_calc len_time : string) : ratio_result :=
  if mat_date <=? sett_date then
    RMsg "Settlement cannot come after maturity of bond!"
  else if negb (String.eqb (lower date_calc) "3060"
                || String.eqb (lower date_calc) "actual")%bool then
    RMsg "Incorrect description for timing calculation"
  else
    let '(next_pay_date, days_remaining, time_diff) :=
      next_pay_date_calc sett_date mat_date (12 / period) in
    let r3060 := thirtysixty_time_ratio_calc sett_date days_remaining time_diff (12 / period) in
    let ract := actual_time_ratio_calc next_pay_date sett_date (12 / period) in
    let time_ratio_3060 := if String.eqb date_calc "3060" then fst r3060 else 0%float in
    let ai_ratio_3060 := if String.eqb date_calc "3060" then snd r3060 else 0%float in
    let time_ratio_actual := if String.eqb date_calc "actual" then fst ract else 0%float in
    let ai_ratio_actual := if String.eqb date_calc "actual" then snd ract else 0%float in
    let time_ratio := (time_ratio_3060 + time_ratio_actual)%float in
    let ai_ratio := (ai_ratio_3060 + ai_ratio_actual)%float in
    if (time_ratio =? 0)%float then RMsg "Incorrect timing calculated"
    else Ratios time_ratio ai_ratio.

Inductive str_or_float : Type :=
| IsStr (s : string)
| IsFloat (x : float).

Definition ratio_index (r : ratio_result) (i : nat) : M str_or_float :=
  match r with
  | RMsg s => c <- str_index s i ;; ret (IsStr c)
  | Ratios t a => ret (IsFloat (if Nat.eqb i 0 then t else a))
  end.

(* The eight running sums of numpy's unrolled loop. *)
Fixpoint add_blocks (r : list float) (a : list float) (blocks : nat) : list float :=
  match blocks with
  | O => r
  | S b =>
      add_blocks (map (fun x => (fst x + snd x)%float) (combine r (firstn 8 a)))
                 (skipn 8 a) b
  end.

(* np.sum of a float64 array: numpy's pairwise summation.  Fewer than 8
   values are added from left to right; up to 128 values are added in
   eight interleaved running sums, which are combined in pairs, and the
   values after the last full block of 8 are added one by one; a longer
   array is split in two.  (The sign of a zero total is not modelled.) *)
Fixpoint pairwise_sum (fuel : nat) (a : list float) : float :=
  let n := List.length a in
  if Nat.ltb n 8 then fold_left PrimFloat.add a 0%float
  else if Nat.leb n 128 then
    let blocks := Nat.div n 8 in
    match add_blocks (firstn 8 a) (skipn 8 a) (blocks - 1) with
    | [r0; r1; r2; r3; r4; r5; r6; r7] =>
        fold_left PrimFloat.add (skipn (8 * blocks) a)
          (((r0 + r1) + (r2 + r3)) + ((r4 + r5) + (r6 + r7)))%float
    | _ => nan
    end
  else
    match fuel with
    | O => nan
    | S fuel' =>
        let n2 := (Nat.div n 2 - Nat.modulo (Nat.div n 2) 8)%nat in
        (pairwise_sum fuel' (firstn n2 a) + pairwise_sum fuel' (skipn n2 a))%float
    end.

Definition np_sum (l : list float) : float := pairwise_sum (List.length l) l.

Inductive sett_result : Type :=
| SMsg (s : string)
| SPrice (x : float).

Section Settlement.

(* np.power on two float64 values. *)
Variable power : float -> float -> float.

Definition bond_price_calc_sett (bond_len : Z * Z) (coupon_per par_val req_yield_per : float)
  (price date_calc len_time : string) (details : bool) : M sett_result :=
  let mat_date := fst bond_len in
  let sett_date := snd bond_len in
  if negb (String.eqb (lower len_time) "semiannual"
           || String.eqb (lower len_time) "annual")%bool
  then ret (SMsg "Incorrect period length description")
  else if negb (String.eqb (lower price) "clean"
                || String.eqb (lower price) "dirty")%bool
  then ret (SMsg "Incorrect price description")
  else
    let p1 := if String.eqb (lower len_time) "semiannual" then 2 else 0 in
    let p2 := if String.eqb (lower len_time) "annual" then 1 else 0 in
    let period := p1 + p2 in
    let bond_len :=
      np_ceil (of_Z (days_to_months (mat_date - sett_date)) / of_Z (12 / period))%float in
    let coupon_per := (coupon_per / of_Z period)%float in
    let req_yield_per := (req_yield_per / of_Z period)%float in
    let coupon_per := rate_format coupon_per in
    let req_yield_per := rate_format req_yield_per in
    time_ratio <- ratio_index (time_ratio_calc mat_date sett_date period date_calc len_time) 0 ;;
    ai_ratio <- ratio_index (time_ratio_calc mat_date sett_date period date_calc len_time) 1 ;;
    match time_ratio, ai_ratio with
    | IsStr s, _ => ret (SMsg s)
    | IsFloat _, IsStr _ => raise TypeError
    | IsFloat time_ratio, IsFloat ai_ratio =>
        cf <- bond_cash_flow_calc (Scalar bond_len) (Scalar coupon_per) (Scalar par_val)
                "annual" details ;;
        match cf with
        | CFMsg _ | CashFlow (Vec _) _ _ => raise TypeError
        | CashFlow (Scalar coupon_pay) _ _ =>
            let bond_len := if is_integer time_ratio then (bond_len + 1)%float else bond_len in
            let n := astype_int bond_len in
            let periods :=
              map (fun i => (of_Z (Z.of_nat i) + time_ratio)%float) (seq 0 (Z.to_nat n)) in
            if n <? 0 then raise ValueError else
            let coupon_pay := repeat coupon_pay (Z.to_nat n) in
            match coupon_pay with
            | [] => raise IndexError
            | c0 :: _ =>
                let ai_price := (c0 * ai_ratio)%float in
                let coupon_pay := update_last (fun c => (c + par_val)%float) coupon_pay in
                let bond_price :=
                  map (fun cp => (fst cp / power (1 + req_yield_per) (snd cp))%float)
                      (combine coupon_pay periods) in
                match bond_price with
                | [] => raise IndexError
                | b0 :: rest =>
                    let bond_price :=
                      (if String.eqb (lower price) "clean" then (b0 - ai_price)%float else b0)
                        :: rest in
                    (if details then
                       emit (Print "Accrued Interest" [Scalar (exact ai_price)]) ;;;
                       emit (Print "Period, Coupon Payment Scheduled, Bond Price"
                               [Vec (map exact periods); Vec (map exact coupon_pay);
                                Vec (map exact bond_price)]) ;;;
                       (if String.eqb (lower price) "clean" then
                          emit (Print "Present Clean Value of Bond"
                                  [Scalar (exact (np_sum bond_price))])
                        else ret tt) ;;;
                       (if String.eqb (lower price) "dirty" then
                          emit (Print "Present Dirty Value of Bond"
                                  [Scalar (exact (np_sum bond_price))])
                        else ret tt)
                     else ret tt) ;;;
                    ret (SPrice (np_sum bond_price))
                end
            end
        end
    end.

End Settlement.


End Binary64.

(** ** yield.py: the yield-to-maturity lookup *)

(* ndarray.sort() on float64: ascending, nan last. *)
Module FloatOrder <: Orders.TotalLeBool.
Definition t := F.
Definition leb := sort_le.
Theorem leb_total : forall x y, leb x y = true \/ leb y x = true.
Proof.
  intros x y. unfold leb, sort_le, sort_lt.
  destruct x as [a| | |], y as [b| | |]; simpl; auto.
  destruct (Qle_bool a b) eqn:Hab; simpl; auto.
  destruct (Qle_bool b a) eqn:Hba; simpl; auto.
  exfalso.
  destruct (Qlt_le_dec b a) as [H|H].
  - apply Qlt_le_weak in H. apply Qle_bool_iff in H. congruence.
  - apply Qle_bool_iff in H. congruence.
Qed.
End FloatOrder.

Module FloatSort := Mergesort.Sort FloatOrder.

(* np.arange(start, stop, step): ceil((stop - start) / step) values
   start + i * step. *)
Definition np_arange (start stop step : Q) : list Q :=
  map (fun i => (start + inject_Z (Z.of_nat i) * step)%Q)
      (seq 0 (Z.to_nat (Qceiling ((stop - start) / step)))).

(* np.where(cond)[0]: the positions of the true entries. *)
Fixpoint where_from (i : nat) (cond : list bool) : list nat :=
  match cond with
  | [] => []
  | b :: cond' =>
      if b then i :: where_from (S i) cond' else where_from (S i) cond'
  end.

Definition np_where (cond : list bool) : list nat := where_from 0 cond.

(* np.searchsorted(a, v), side 'left': the binary search of numpy. *)
Fixpoint bisect_left (fuel : nat) (a : list F) (v : F) (lo hi : nat) : nat :=
  match fuel with
  | O => lo
  | S fuel' =>
      if Nat.ltb lo hi then
        let mid := (lo + Nat.div2 (hi - lo))%nat in
        if sort_lt (nth mid a NaN) v then bisect_left fuel' a v (S mid) hi
        else bisect_left fuel' a v lo mid
      else lo
  end.

Definition np_searchsorted (a : list F) (v : F) : nat :=
  bisect_left (List.length a) a v 0 (List.length a).

(* t[i] for a tuple or a[i] for a 1-d array *)
Definition index {A} (l : list A) (i : nat) : M A :=
  match nth_error l i with
  | Some x => ret x
  | None => raise IndexError
  end.

(* a[idx] for an array of positions idx *)
Fixpoint take {A} (a : list A) (idx : list nat) : M (list A) :=
  match idx with
  | [] => ret []
  | i :: idx' => x <- index a i ;; xs <- take a idx' ;; ret (x :: xs)
  end.

(* the shape of a 1-d array *)
Definition shape {A} (a : list A) : list nat := [List.length a].

(* bond_price_calc(...)[2]: the third price array, or the third
   character of the returned message. *)
Definition price_index2 (r : price_result) : M (string + nd F) :=
  match r with
  | PMsg s => c <- str_index s 2 ;; ret (inl c)
  | Prices _ _ bond_price => ret (inr bond_price)
  end.

(* The body of the try statement (lines 89-90). *)
Definition exact_match (bond_prices : string + nd F) (bond_price : Q) : M (list nat) :=
  match bond_prices with
  | inl _ => raise TypeError
  | inr (Scalar _) => raise ValueError
  | inr (Vec prices) =>
      let target := np_round2 (Fin bond_price) in
      let bond_index :=
        np_where (map (fun p => Feqb (np_round2 p) target) prices) in
      index (shape bond_index) 1 ;;;
      ret bond_index
  end.

(* The body of the except clause (lines 92-95). *)
Definition nearest_match (bond_prices : string + nd F) (bond_price : Q) : M (list nat) :=
  match bond_prices with
  | inl _ => raise AttributeError
  | inr (Scalar _) => raise AxisError
  | inr (Vec prices) =>
      let ordered_bond_prices := FloatSort.sort prices in
      let bond_index :=
        np_searchsorted (map np_round2 ordered_bond_prices) (np_round2 (Fin bond_price)) in
      key <- index ordered_bond_prices bond_index ;;
      ret (np_where (map (fun p => Feqb p key) prices))
  end.

Definition req_yield_pers : list Q := np_arange 0.01 100 0.01.

(* Lines 97-100: the report row and the returned value. *)
Definition lookup_result (bond_index : list nat) (details : bool) : M Q :=
  (if details then
     sel <- take req_yield_pers bond_index ;;
     y <- index sel 0 ;;
     emit (Print "Yield-to-Maturity Lookup" [Scalar (Fdiv (Fin y) (Fin 100))])
   else ret tt) ;;;
  sel <- take req_yield_pers bond_index ;;
  index sel 0.

Definition bond_yield_maturity_calc (bond_len : nd Z) (coupon_per : nd Q)
  (bond_price : Q) (par_val : nd Q) (call_val : Q) (len_time : string)
  (details : bool) : M Q :=
  r <- bond_price_calc bond_len coupon_per par_val (Vec req_yield_pers)
         call_val len_time false ;;
  bond_prices <- price_index2 r ;;
  bond_index <- try_except (exact_match bond_prices bond_price)
                           (nearest_match bond_prices bond_price) ;;
  lookup_result bond_index details.

(* The solver with the try statement replaced by the body of its except
   clause. *)
Definition bond_yield_maturity_calc_nearest (bond_len : nd Z) (coupon_per : nd Q)
  (bond_price : Q) (par_val : nd Q) (call_val : Q) (len_time : string)
  (details : bool) : M Q :=
  r <- bond_price_calc bond_len coupon_per par_val (Vec req_yield_pers)
         call_val len_time false ;;
  bond_prices <- price_index2 r ;;
  bond_index <- nearest_match bond_prices bond_price ;;
  lookup_result bond_index details.

(** * Notions used in the statements *)

Definition valid_len_time (len_time : string) : bool :=
  (String.eqb (lower len_time) "semiannual" || String.eqb (lower len_time) "annual")%bool.

Definition valid_price (price : string) : bool :=
  (String.eqb (lower price) "clean" || String.eqb (lower price) "dirty")%bool.

(* The number of coupon periods per year that the pricing functions
   derive from [len_time]. *)
Definition period_of (len_time : string) : Z :=
  (if String.eqb (lower len_time) "semiannual" then 2 else 0)
  + (if String.eqb (lower len_time) "annual" then 1 else 0).

(* The coupon amount and redemption amount that bond_price_calc hands
   to the price formula. *)
Definition coupon_pay_of (coupon_per par_val : Q) (len_time : string) : Q :=
  (par_val * rate_format (rate_format (coupon_per / inject_Z (period_of len_time))
                          / inject_Z 1))%Q.

Definition redemption_of (par_val call_val : Q) : Q :=
  if Qpos call_val then call_val else par_val.

(* The three rounded present values of lines 107-109 at one yield. *)
Definition price_at (bond_len : Z) (coupon_pay par_val y : Q) : F * F * F :=
  let df := Fdiv (Fin 1) (np_power (1 + y) bond_len) in
  let cp := np_round2 (Fmul (Fin coupon_pay) (Fdiv (Fsub (Fin 1) df) (Fin y))) in
  let pp := np_round2 (Fmul (Fin par_val) df) in
  (cp, pp, np_round2 (Fadd cp pp)).

Definition grid_price_at (bond_len : Z) (coupon_per par_val call_val : Q)
  (len_time : string) (req_yield : Q) : F * F * F :=
  price_at (bond_len * period_of len_time)
           (coupon_pay_of coupon_per par_val len_time)
           (redemption_of par_val call_val)
           (rate_format (req_yield / inject_Z (period_of len_time))).

(* The prices that bond_price_calc returns for the candidate yields. *)
Definition grid_prices (bond_len : Z) (coupon_per par_val call_val : Q)
  (len_time : string) : list F :=
  match value (bond_price_calc (Scalar bond_len) (Scalar coupon_per) (Scalar par_val)
                 (Vec req_yield_pers) call_val len_time false) with
  | Ok (Prices _ _ (Vec l)) => l
  | _ => []
  end.

(* The first grid position whose rounded price equals the rounded
   observed price. *)
Definition first_exact_match (prices : list F) (bond_price : Q) : option nat :=
  hd_error (np_where (map (fun p => Feqb (np_round2 p) (np_round2 (Fin bond_price)))
                          prices)).


(* The number of coupon periods that bond_price_calc_sett derives from
   the two dates. *)
Definition sett_bond_len (mat_date sett_date : Z) (len_time : string) : Z :=
  - ((- days_to_months (mat_date - sett_date)) / (12 / period_of len_time)).

(* The discounted cash flows of line 300, before the clean adjustment. *)
Definition discounted_flows (power : F -> F -> F) (bond_len : Z) (time_ratio : F)
  (coupon_pay par_val req_yield_per : Q) : list F :=
  let bond_len := if is_integer time_ratio then bond_len + 1 else bond_len in
  let periods :=
    map (fun i => Fadd (FZ (Z.of_nat i)) time_ratio) (seq 0 (Z.to_nat bond_len)) in
  let coupon_pay :=
    update_last (fun c => Fadd c (Fin par_val))
                (repeat (Fin coupon_pay) (Z.to_nat bond_len)) in
  map (fun cp => Fdiv (fst cp) (power (Fin (1 + req_yield_per)) (snd cp)))
      (combine coupon_pay periods).

(* np.power where its value is rational: the base 1 or an integral
   exponent (nan elsewhere). *)
Definition power_rat (x t : F) : F :=
  match x, t with
  | Fin b, Fin e =>
      if Qeq_bool b 1 then Fin 1
      else if is_integer (Fin e) then np_power b (Qfloor e) else NaN
  | _, _ => NaN
  end.

(* The day count of the six months before the first day of a month. *)
Definition half_year_days (m : Z) : Z :=
  month_to_day m - month_to_day (to_month (month_to_day m) - 6).

Definition is_rounded (p : F) : Prop := np_round2 p =f= p.

Definition below (v : F) (x : F) : bool := sort_lt x v.

(* ndarray.ndim == 1 *)
Definition is_1d {A} (x : nd A) : bool :=
  match x with Scalar _ => false | Vec _ => true end.

(* The first fail-safe of the pricing functions passes. *)
Definition sizes_agree {A B C} (bond_len : nd A) (coupon_per : nd B) (par_val : nd C)
  : bool :=
  (Nat.eqb (size bond_len) (size coupon_per)
   && Nat.eqb (size coupon_per) (size par_val))%bool.

(* A computation that returns a message has printed nothing. *)
Definition silent_message {A} (is_msg : A -> bool) (m : M A) : Prop :=
  match value m with
  | Ok r => is_msg r = true -> output m = []
  | Raise _ => True
  end.

(* The returned value is a message string. *)
Definition is_cf_msg (r : cash_flow_result) : bool :=
  match r with CFMsg _ => true | _ => false end.

Definition is_price_msg (r : price_result) : bool :=
  match r with PMsg _ => true | _ => false end.

Definition is_sett_msg (r : sett_result) : bool :=
  match r with SMsg _ => true | _ => false end.

(* Every entry of an array satisfies P. *)
Definition nd_Forall {A} (P : A -> Prop) (x : nd A) : Prop :=
  match x with
  | Scalar a => P a
  | Vec l => Forall P l
  end.

Section Binary64Notions.
Import Floats.




End Binary64Notions.

(** * Properties *)

(** ** The monad *)

Lemma value_bind {A B} (m : M A) (k : A -> M B) :
  value (bind m k) =
  match value m with Ok a => value (k a) | Raise e => Raise e end.
Proof.
  destruct m as [out [a|e]]; simpl; auto.
  destruct (k a); reflexivity.
Qed.

Lemma bind_ret {A B} (a : A) (k : A -> M B) : bind (ret a) k = k a.
Proof. unfold bind, ret. destruct (k a). reflexivity. Qed.

Lemma try_except_raise {A} (e : exn) (h : M A) : try_except ([], Raise e) h = h.
Proof. unfold try_except. destruct h. reflexivity. Qed.

(** ** Order and equality of float values *)

Lemma Qle_bool_false (a b : Q) : Qle_bool a b = false -> (b < a)%Q.
Proof.
  intros H. apply Qnot_le_lt. intros Hle.
  apply Qle_bool_iff in Hle. congruence.
Qed.

Lemma Qle_bool_true (a b : Q) : Qle_bool a b = true -> (a <= b)%Q.
Proof. apply Qle_bool_iff. Qed.

Ltac qbool :=
  repeat match goal with
    | H : Qle_bool _ _ = true |- _ => apply Qle_bool_true in H
    | H : Qle_bool _ _ = false |- _ => apply Qle_bool_false in H
    | H : Qeq_bool _ _ = true |- _ => apply Qeq_bool_iff in H
    | H : Qeq_bool _ _ = false |- _ => apply Qeq_bool_neq in H
    end.

Instance Feq_equiv : Equivalence Feq.
Proof.
  split.
  - intros [a| | |]; simpl; auto. reflexivity.
  - intros [a| | |] [b| | |]; simpl; auto. intros H; symmetry; exact H.
  - intros [a| | |] [b| | |] [c| | |]; simpl; auto; try contradiction.
    intros H1 H2. rewrite H1. exact H2.
Qed.

Lemma sort_lt_compat (x x' y y' : F) :
  x =f= x' -> y =f= y' -> sort_lt x y = sort_lt x' y'.
Proof.
  destruct x as [a| | |], x' as [a'| | |]; simpl; try contradiction;
    destruct y as [b| | |], y' as [b'| | |]; simpl; try contradiction; auto.
  intros Ha Hb. unfold sort_lt; simpl. rewrite Ha, Hb. reflexivity.
Qed.

Lemma Feqb_compat (x x' y y' : F) :
  x =f= x' -> y =f= y' -> Feqb x y = Feqb x' y'.
Proof.
  destruct x as [a| | |], x' as [a'| | |]; simpl; try contradiction;
    destruct y as [b| | |], y' as [b'| | |]; simpl; try contradiction; auto.
  intros Ha Hb. rewrite Ha, Hb. reflexivity.
Qed.

Lemma Feqb_Feq (x y : F) : Feqb x y = true -> x =f= y.
Proof.
  destruct x as [a| | |], y as [b| | |]; simpl; try discriminate; auto.
  apply Qeq_bool_iff.
Qed.

Lemma sort_le_trans : Transitive (fun x y => is_true (FloatOrder.leb x y)).
Proof.
  intros x y z. unfold FloatOrder.leb, sort_le, sort_lt, is_true.
  destruct x as [a| | |], y as [b| | |], z as [c| | |]; simpl; auto;
    try discriminate.
  rewrite !orb_false_r, !negb_involutive.
  intros H1 H2. qbool. apply Qle_bool_iff. eapply Qle_trans; eauto.
Qed.

(* Among sorted values, nothing below the key follows a value that is
   not below it. *)
Lemma sort_lt_le (x y v : F) :
  sort_le x y = true -> sort_lt x v = false -> sort_lt y v = false.
Proof.
  unfold sort_le, sort_lt.
  destruct x as [a| | |], y as [b| | |], v as [c| | |]; simpl; auto;
    try discriminate.
  rewrite !orb_false_r. intros H1 H2.
  apply negb_true_iff in H1. apply negb_false_iff in H1, H2.
  apply negb_false_iff. qbool. apply Qle_bool_iff. eapply Qle_trans; eauto.
Qed.

(* A value neither below nor above the key is equal to it. *)
Lemma sort_lt_antisym (x v : F) :
  sort_lt x v = false -> sort_lt v x = false -> isnan v = false -> Feqb x v = true.
Proof.
  unfold sort_lt.
  destruct x as [a| | |], v as [c| | |]; simpl; auto; try discriminate.
  rewrite !orb_false_r. intros H1 H2 _.
  apply negb_false_iff in H1, H2. qbool.
  apply Qeq_bool_iff. apply Qle_antisym; auto.
Qed.

Lemma Feqb_sort_lt (x v : F) : Feqb x v = true -> sort_lt x v = false.
Proof.
  unfold sort_lt.
  destruct x as [a| | |], v as [c| | |]; simpl; auto; try discriminate.
  intros H. qbool. rewrite orb_false_r. apply negb_false_iff.
  apply Qle_bool_iff. rewrite H. apply Qle_refl.
Qed.

Lemma Feqb_not_nan (x v : F) : Feqb x v = true -> isnan v = false.
Proof. destruct x, v; simpl; auto; discriminate. Qed.

(** ** Rounding to two decimals *)

Lemma rint_compat (a b : Q) : (a == b)%Q -> rint a = rint b.
Proof.
  intros H. unfold rint. cbv zeta.
  assert (Hf : Qfloor a = Qfloor b) by (apply Qfloor_comp; exact H).
  rewrite Hf.
  assert (Hc : (a - inject_Z (Qfloor b) ?= 1 # 2)%Q
               = (b - inject_Z (Qfloor b) ?= 1 # 2)%Q).
  { apply Qcompare_comp; [rewrite H|]; reflexivity. }
  rewrite Hc. reflexivity.
Qed.

Lemma rint_inject_Z (z : Z) : rint (inject_Z z) = z.
Proof.
  unfold rint. cbv zeta. rewrite Qfloor_Z.
  assert (Hc : (inject_Z z - inject_Z z ?= 1 # 2)%Q = (0 ?= 1 # 2)%Q).
  { apply Qcompare_comp; [ring|reflexivity]. }
  rewrite Hc. reflexivity.
Qed.

Lemma np_round2_compat (x y : F) : x =f= y -> np_round2 x =f= np_round2 y.
Proof.
  destruct x as [a| | |], y as [b| | |]; cbn [Feq np_round2];
    try contradiction; auto.
  intros H. rewrite (rint_compat (a * 100) (b * 100)).
  - reflexivity.
  - rewrite H. reflexivity.
Qed.

(* Rounding a rounded value changes nothing. *)
Lemma np_round2_idem (x : F) : np_round2 (np_round2 x) =f= np_round2 x.
Proof.
  destruct x as [a| | |]; cbn [Feq np_round2]; auto.
  rewrite (rint_compat _ (inject_Z (rint (a * 100)))).
  - rewrite rint_inject_Z. reflexivity.
  - field.
Qed.

Lemma is_rounded_round (x : F) : is_rounded (np_round2 x).
Proof. apply np_round2_idem. Qed.

(** ** Sorted arrays and the binary search *)

(* In a sorted array the values below the key form a prefix. *)
Lemma sorted_prefix (v : F) (l : list F) :
  StronglySorted (fun x y => is_true (FloatOrder.leb x y)) l ->
  exists c, (c <= List.length l)%nat /\
    (forall i, (i < c)%nat -> below v (nth i l NaN) = true) /\
    (forall i, (c <= i < List.length l)%nat -> below v (nth i l NaN) = false).
Proof.
  induction 1 as [|a l Hs IH Hall].
  - exists 0%nat. simpl. repeat split; intros; lia.
  - destruct (below v a) eqn:Ha.
    + destruct IH as (c & Hc & Hlo & Hhi).
      exists (S c). simpl. repeat split.
      * lia.
      * intros [|i] Hi; auto. apply Hlo. lia.
      * intros [|i] Hi; [lia|]. apply Hhi. lia.
    + exists 0%nat. simpl. repeat split.
      * lia.
      * intros; lia.
      * intros [|i] Hi; auto.
        unfold below. apply sort_lt_le with (x := a); auto.
        rewrite Forall_forall in Hall. apply Hall.
        apply nth_In. lia.
Qed.

Lemma bisect_left_spec (a : list F) (v : F) (c : nat) :
  (forall i, (i < c)%nat -> below v (nth i a NaN) = true) ->
  (forall i, (c <= i < List.length a)%nat -> below v (nth i a NaN) = false) ->
  forall fuel lo hi,
    (lo <= c <= hi)%nat -> (hi <= List.length a)%nat -> (hi - lo <= fuel)%nat ->
    bisect_left fuel a v lo hi = c.
Proof.
  intros Hlo Hhi. induction fuel as [|fuel IH]; intros lo hi Hc Hn Hf; simpl.
  - lia.
  - destruct (Nat.ltb lo hi) eqn:Hlt.
    + apply Nat.ltb_lt in Hlt.
      assert (Hd' : (Nat.div2 (hi - lo) < hi - lo)%nat)
        by (apply Nat.lt_div2; lia).
      remember (Nat.div2 (hi - lo)) as d eqn:Hd.
      set (mid := (lo + d)%nat) in *.
      assert (Hmid : (lo <= mid < hi)%nat) by (unfold mid; lia).
      clearbody mid. clear Hd Hd'.
      fold (below v (nth mid a NaN)).
      destruct (below v (nth mid a NaN)) eqn:Hb.
      * apply IH; try lia.
        destruct (Nat.lt_ge_cases mid c) as [H|H]; [lia|].
        rewrite Hhi in Hb by lia. discriminate.
      * apply IH; try lia.
        destruct (Nat.lt_ge_cases mid c) as [H|H]; [|lia].
        rewrite Hlo in Hb by lia. discriminate.
    + apply Nat.ltb_ge in Hlt. lia.
Qed.

Lemma np_searchsorted_spec (a : list F) (v : F) (c : nat) :
  (c <= List.length a)%nat ->
  (forall i, (i < c)%nat -> below v (nth i a NaN) = true) ->
  (forall i, (c <= i < List.length a)%nat -> below v (nth i a NaN) = false) ->
  np_searchsorted a v = c.
Proof.
  intros Hc Hlo Hhi. unfold np_searchsorted.
  apply bisect_left_spec; auto; lia.
Qed.

Lemma StronglySorted_nth {A} (R : A -> A -> Prop) (l : list A) (d : A) :
  StronglySorted R l ->
  forall i j, (i < j < List.length l)%nat -> R (nth i l d) (nth j l d).
Proof.
  induction 1 as [|a l Hs IH Hall]; intros i j Hij; simpl in *.
  - lia.
  - destruct i as [|i], j as [|j]; try lia.
    + rewrite Forall_forall in Hall. apply Hall. apply nth_In. lia.
    + apply IH. lia.
Qed.

Lemma sort_le_refl (x : F) : sort_le x x = true.
Proof.
  unfold sort_le, sort_lt. destruct x as [a| | |]; simpl; auto.
  rewrite orb_false_r, negb_involutive. apply Qle_bool_iff, Qle_refl.
Qed.

(** ** Positions of the true entries *)

Lemma where_from_In (cond : list bool) :
  forall k i, In i (where_from k cond) ->
    (k <= i < k + List.length cond)%nat /\ nth (i - k) cond false = true.
Proof.
  induction cond as [|b cond IH]; intros k i Hin; simpl in *.
  - contradiction.
  - assert (Hrec : In i (where_from (S k) cond) ->
                   (k <= i < k + S (List.length cond))%nat /\
                   match (i - k)%nat with
                   | O => b
                   | S m => nth m cond false
                   end = true).
    { intros H. apply IH in H. destruct H as [Hb Hn].
      replace (i - k)%nat with (S (i - S k)) by lia. split; [lia|exact Hn]. }
    destruct b.
    + destruct Hin as [Heq|Hin]; auto.
      subst i. rewrite Nat.sub_diag. split; [lia|reflexivity].
    + auto.
Qed.

Lemma np_where_bound (cond : list bool) :
  Forall (fun i => (i < List.length cond)%nat) (np_where cond).
Proof.
  apply Forall_forall. intros i Hin.
  apply where_from_In in Hin. lia.
Qed.

Lemma np_where_hd (cond : list bool) (i : nat) :
  hd_error (np_where cond) = Some i ->
  (i < List.length cond)%nat /\ nth i cond false = true.
Proof.
  intros H. assert (Hin : In i (np_where cond)).
  { destruct (np_where cond); simpl in H; [discriminate|].
    injection H as ->. left; reflexivity. }
  apply where_from_In in Hin. rewrite Nat.sub_0_r in Hin.
  split; [lia|tauto].
Qed.

(** ** Indexing *)

Lemma index_nth {A} (l : list A) (i : nat) (d : A) :
  (i < List.length l)%nat -> index l i = ret (nth i l d).
Proof.
  intros H. unfold index. rewrite (nth_error_nth' l d H). reflexivity.
Qed.

Lemma index_out {A} (l : list A) (i : nat) :
  (List.length l <= i)%nat -> index l i = raise IndexError.
Proof.
  intros H. unfold index.
  apply nth_error_None in H. rewrite H. reflexivity.
Qed.

Lemma take_nth {A} (a : list A) (d : A) (idx : list nat) :
  Forall (fun i => (i < List.length a)%nat) idx ->
  take a idx = ret (map (fun i => nth i a d) idx).
Proof.
  induction 1 as [|i idx Hi Hall IH]; simpl.
  - reflexivity.
  - rewrite (index_nth a i d Hi), bind_ret, IH, bind_ret. reflexivity.
Qed.

(* Every candidate of the grid is at least 0.01. *)
Lemma req_yield_pers_ge (g : Q) : In g req_yield_pers -> (1 # 100 <= g)%Q.
Proof.
  unfold req_yield_pers, np_arange. intros H.
  apply in_map_iff in H. destruct H as (i & <- & _).
  assert (Hi : (0 <= inject_Z (Z.of_nat i))%Q).
  { change 0%Q with (inject_Z 0). rewrite <- Zle_Qle. lia. }
  set (z := inject_Z (Z.of_nat i)) in *. lra.
Qed.



Opaque req_yield_pers.

Lemma lookup_result_value (bond_index : list nat) (i : nat) (details : bool) :
  Forall (fun i => (i < List.length req_yield_pers)%nat) bond_index ->
  hd_error bond_index = Some i ->
  value (lookup_result bond_index details) = Ok (nth i req_yield_pers 0%Q).
Proof.
  intros Hall Hhd. unfold lookup_result.
  rewrite (take_nth req_yield_pers 0%Q bond_index Hall).
  destruct bond_index as [|j rest]; simpl in Hhd; [discriminate|].
  injection Hhd as ->.
  destruct details; simpl; reflexivity.
Qed.

(** ** The lookup of the solver *)

Section Lookup.

Variable prices : list F.
Variable bond_price : Q.
Hypothesis rounded : Forall is_rounded prices.

Let target := np_round2 (Fin bond_price).
Let ordered := FloatSort.sort prices.

Lemma ordered_sorted :
  StronglySorted (fun x y => is_true (FloatOrder.leb x y)) ordered.
Proof. apply FloatSort.StronglySorted_sort. exact sort_le_trans. Qed.

Lemma ordered_length : List.length ordered = List.length prices.
Proof.
  symmetry. apply Permutation_length. apply FloatSort.Permuted_sort.
Qed.

Lemma ordered_rounded (i : nat) :
  (i < List.length ordered)%nat -> is_rounded (nth i ordered NaN).
Proof.
  intros Hi. rewrite Forall_forall in rounded. apply rounded.
  apply Permutation_in with (l := ordered).
  - apply Permutation_sym. apply FloatSort.Permuted_sort.
  - apply nth_In. exact Hi.
Qed.

(* The insertion point in the rounded sorted array is the one in the
   sorted array itself. *)
Lemma searchsorted_ordered :
  exists c, np_searchsorted (map np_round2 ordered) target = c /\
    (c <= List.length ordered)%nat /\
    (forall i, (i < c)%nat -> below target (nth i ordered NaN) = true) /\
    (forall i, (c <= i < List.length ordered)%nat ->
               below target (nth i ordered NaN) = false).
Proof.
  destruct (sorted_prefix target ordered ordered_sorted) as (c & Hc & Hlo & Hhi).
  exists c. repeat split; auto.
  assert (Hnth : forall i, (i < List.length ordered)%nat ->
            below target (nth i (map np_round2 ordered) NaN)
            = below target (nth i ordered NaN)).
  { intros i Hi. change NaN with (np_round2 NaN) at 1. rewrite map_nth.
    unfold below. apply sort_lt_compat; [|reflexivity].
    apply ordered_rounded. exact Hi. }
  apply np_searchsorted_spec; rewrite ?length_map; auto.
  - intros i Hi. rewrite Hnth by lia. auto.
  - intros i Hi. rewrite Hnth by lia. auto.
Qed.

(* When some rounded price equals the rounded observed price, the
   except clause selects exactly the positions of the exact matches. *)
Lemma nearest_match_exact (i0 : nat) :
  hd_error (np_where (map (fun p => Feqb (np_round2 p) target) prices)) = Some i0 ->
  nearest_match (inr (Vec prices)) bond_price
  = ret (np_where (map (fun p => Feqb (np_round2 p) target) prices)).
Proof.
  intros Hhd. apply np_where_hd in Hhd. destruct Hhd as [Hi0 Hm].
  rewrite length_map in Hi0.
  change false with ((fun p => Feqb (np_round2 p) target) NaN) in Hm.
  rewrite map_nth in Hm.
  set (p0 := nth i0 prices NaN) in *.
  assert (Hp0 : p0 =f= target).
  { transitivity (np_round2 p0).
    - symmetry. rewrite Forall_forall in rounded. apply rounded.
      apply nth_In. exact Hi0.
    - apply Feqb_Feq. exact Hm. }
  assert (Hnan : isnan target = false) by (eapply Feqb_not_nan; eauto).
  assert (Hin : In p0 ordered).
  { apply Permutation_in with (l := prices).
    - apply FloatSort.Permuted_sort.
    - apply nth_In. exact Hi0. }
  destruct (In_nth ordered p0 NaN Hin) as (k & Hk & Hnk).
  assert (Hbk : below target (nth k ordered NaN) = false).
  { rewrite Hnk. unfold below.
    rewrite (sort_lt_compat p0 target target target Hp0 (reflexivity _)).
    apply Feqb_sort_lt.
    rewrite (Feqb_compat target p0 target target); [|symmetry; auto|reflexivity].
    rewrite <- (Feqb_compat (np_round2 p0) p0 target target); auto.
    - rewrite Forall_forall in rounded. apply rounded. apply nth_In; auto.
    - reflexivity. }
  destruct searchsorted_ordered as (c & Hc & Hle & Hlo & Hhi).
  assert (Hck : (c <= k)%nat).
  { destruct (Nat.lt_ge_cases k c) as [H|H]; auto.
    rewrite Hlo in Hbk by auto. discriminate. }
  unfold nearest_match. fold ordered. fold target. rewrite Hc.
  rewrite (index_nth ordered c NaN) by lia. rewrite bind_ret.
  set (key := nth c ordered NaN).
  assert (Hkey : Feqb key target = true).
  { apply sort_lt_antisym; auto.
    - apply (Hhi c). lia.
    - assert (Hle' : sort_le key p0 = true).
      { destruct (Nat.eq_dec c k) as [->|Hne].
        - unfold key. rewrite Hnk. apply sort_le_refl.
        - rewrite <- Hnk. unfold key.
          apply (StronglySorted_nth _ ordered NaN ordered_sorted). lia. }
      unfold sort_le in Hle'. apply negb_true_iff in Hle'.
      rewrite <- Hle'. apply sort_lt_compat; [symmetry; auto|reflexivity]. }
  f_equal. f_equal. apply map_ext_in. intros p Hp.
  apply Feqb_compat.
  - symmetry. rewrite Forall_forall in rounded. apply rounded. exact Hp.
  - apply Feqb_Feq. exact Hkey.
Qed.

(* When every rounded price is below the rounded observed price, the
   insertion point is the length of the array and indexing fails. *)
Lemma nearest_match_above :
  Forall (fun p => sort_lt p target = true) prices ->
  nearest_match (inr (Vec prices)) bond_price = raise IndexError.
Proof.
  intros Hall.
  destruct searchsorted_ordered as (c & Hc & Hle & Hlo & Hhi).
  assert (Hcn : c = List.length ordered).
  { destruct (Nat.lt_ge_cases c (List.length ordered)) as [H|H]; [|lia].
    assert (Hb : below target (nth c ordered NaN) = false) by (apply Hhi; lia).
    assert (Hin : In (nth c ordered NaN) prices).
    { apply Permutation_in with (l := ordered).
      - apply Permutation_sym. apply FloatSort.Permuted_sort.
      - apply nth_In. exact H. }
    rewrite Forall_forall in Hall. apply Hall in Hin.
    unfold below in Hb. congruence. }
  unfold nearest_match. fold ordered. fold target. rewrite Hc.
  rewrite index_out by lia. reflexivity.
Qed.

End Lookup.

(** ** Par-date pricing of one bond over an array of yields *)

Lemma combine_map {A B C} (f : A -> B) (g : A -> C) (l : list A) :
  combine (map f l) (map g l) = map (fun a => (f a, g a)) l.
Proof. induction l; simpl; congruence. Qed.

Lemma broadcast2_vs {A B C} (h : A -> B -> C) (l : list A) (b : B) :
  broadcast2 h (Vec l) (Scalar b) = ret (Vec (map (fun a => h a b) l)).
Proof. reflexivity. Qed.

Lemma broadcast2_sv {A B C} (h : A -> B -> C) (a : A) (l : list B) :
  broadcast2 h (Scalar a) (Vec l) = ret (Vec (map (h a) l)).
Proof. reflexivity. Qed.

Lemma broadcast2_map {X A B C} (h : A -> B -> C) (f : X -> A) (g : X -> B)
  (l : list X) :
  broadcast2 h (Vec (map f l)) (Vec (map g l))
  = ret (Vec (map (fun x => h (f x) (g x)) l)).
Proof.
  unfold broadcast2. rewrite !length_map, Nat.eqb_refl, combine_map, map_map.
  reflexivity.
Qed.

Ltac broadcast_step :=
  rewrite ?broadcast2_vs, ?broadcast2_sv, ?bind_ret, ?map_map;
  cbv beta; cbn [ndmap]; rewrite ?map_map;
  rewrite ?broadcast2_map, ?bind_ret; cbv beta.

Lemma present_values_vec (c p : Q) (n : Z) (ys : list Q) :
  present_values (Scalar c) (Scalar p) (Vec ys) (Scalar n)
  = ret (Vec (map (fun y => fst (fst (price_at n c p y))) ys),
         Vec (map (fun y => snd (fst (price_at n c p y))) ys),
         Vec (map (fun y => snd (price_at n c p y)) ys)).
Proof.
  unfold present_values, discount_factor, ofQ. cbn [ndmap].
  do 6 broadcast_step.
  reflexivity.
Qed.

Lemma bond_price_calc_vec (n : Z) (c p call : Q) (len_time : string) (ys : list Q) :
  valid_len_time len_time = true ->
  bond_price_calc (Scalar n) (Scalar c) (Scalar p) (Vec ys) call len_time false
  = ret (Prices
           (Vec (map (fun y => fst (fst (grid_price_at n c p call len_time y))) ys))
           (Vec (map (fun y => snd (fst (grid_price_at n c p call len_time y))) ys))
           (Vec (map (fun y => snd (grid_price_at n c p call len_time y)) ys))).
Proof.
  intros Hv. unfold bond_price_calc.
  cbn [size Nat.eqb negb orb].
  unfold valid_len_time in Hv. rewrite Hv. cbn [negb].
  fold (period_of len_time).
  change (bond_cash_flow_calc _ _ _ "annual" false)
    with (ret (CashFlow
                 (Scalar (coupon_pay_of c p len_time)) (Scalar p)
                 (Scalar (n * period_of len_time * 1)))).
  rewrite bind_ret.
  replace (if Qpos call then ndmap (fun _ => call) (Scalar p) else Scalar p)
    with (Scalar (redemption_of p call))
    by (unfold redemption_of; destruct (Qpos call); reflexivity).
  cbn [ndmap]. rewrite present_values_vec, bind_ret, bind_ret, !map_map.
  reflexivity.
Qed.

Lemma bond_price_calc_invalid (bond_len : nd Z) (c p ys : nd Q) (call : Q)
  (len_time : string) (details : bool) :
  valid_len_time len_time = false ->
  exists s, bond_price_calc bond_len c p ys call len_time details = ret (PMsg s).
Proof.
  intros Hv. unfold bond_price_calc.
  destruct (_ || _)%bool; [eauto|].
  unfold valid_len_time in Hv. rewrite Hv. cbn [negb]. eauto.
Qed.

(** ** The solver on the yield grid *)

Lemma grid_prices_valid (n : Z) (c p call : Q) (len_time : string) :
  valid_len_time len_time = true ->
  grid_prices n c p call len_time
  = map (fun y => snd (grid_price_at n c p call len_time y)) req_yield_pers.
Proof.
  intros Hv. unfold grid_prices. rewrite bond_price_calc_vec by exact Hv.
  reflexivity.
Qed.

Lemma grid_prices_invalid (n : Z) (c p call : Q) (len_time : string) :
  valid_len_time len_time = false -> grid_prices n c p call len_time = [].
Proof.
  intros Hv. unfold grid_prices.
  destruct (bond_price_calc_invalid (Scalar n) (Scalar c) (Scalar p)
              (Vec req_yield_pers) call len_time false Hv) as [s ->].
  reflexivity.
Qed.

Lemma grid_prices_rounded (n : Z) (c p call : Q) (len_time : string) :
  Forall is_rounded (grid_prices n c p call len_time).
Proof.
  destruct (valid_len_time len_time) eqn:Hv.
  - rewrite grid_prices_valid by exact Hv.
    apply Forall_forall. intros x Hin. apply in_map_iff in Hin.
    destruct Hin as (y & <- & _). apply is_rounded_round.
  - rewrite grid_prices_invalid by exact Hv. constructor.
Qed.

Lemma grid_prices_length (n : Z) (c p call : Q) (len_time : string) :
  valid_len_time len_time = true ->
  List.length (grid_prices n c p call len_time) = List.length req_yield_pers.
Proof. intros Hv. rewrite grid_prices_valid by exact Hv. apply length_map. Qed.

(* The try body fails on every input: the shape of the 1-d index array
   has no second entry. *)
Lemma exact_match_raises (bond_prices : string + nd F) (bond_price : Q) :
  exists e, exact_match bond_prices bond_price = ([], Raise e).
Proof.
  destruct bond_prices as [s|[x|prices]]; unfold exact_match.
  - exists TypeError. reflexivity.
  - exists ValueError. reflexivity.
  - exists IndexError. reflexivity.
Qed.

Lemma try_nearest_match (bond_prices : string + nd F) (bond_price : Q) :
  try_except (exact_match bond_prices bond_price)
             (nearest_match bond_prices bond_price)
  = nearest_match bond_prices bond_price.
Proof.
  destruct (exact_match_raises bond_prices bond_price) as [e ->].
  apply try_except_raise.
Qed.

(* The solver on one bond, in terms of the grid prices. *)
Lemma solver_on_grid (n : Z) (c p obs call : Q) (len_time : string) (details : bool) :
  valid_len_time len_time = true ->
  bond_yield_maturity_calc (Scalar n) (Scalar c) obs (Scalar p) call len_time details
  = (bond_index <- nearest_match (inr (Vec (grid_prices n c p call len_time))) obs ;;
     lookup_result bond_index details).
Proof.
  intros Hv. unfold bond_yield_maturity_calc.
  rewrite grid_prices_valid by exact Hv.
  rewrite bond_price_calc_vec by exact Hv.
  rewrite bind_ret. cbn [price_index2]. rewrite bind_ret.
  rewrite try_nearest_match. reflexivity.
Qed.

Lemma solver_first_exact_match (n : Z) (c p obs call : Q) (len_time : string)
  (details : bool) (i : nat) :
  first_exact_match (grid_prices n c p call len_time) obs = Some i ->
  value (bond_yield_maturity_calc (Scalar n) (Scalar c) obs (Scalar p) call
           len_time details)
  = Ok (nth i req_yield_pers 0%Q).
Proof.
  intros Hm. destruct (valid_len_time len_time) eqn:Hv.
  - rewrite solver_on_grid by exact Hv.
    unfold first_exact_match in Hm.
    rewrite (nearest_match_exact _ obs (grid_prices_rounded _ _ _ _ _) i Hm).
    rewrite bind_ret. apply lookup_result_value; auto.
    rewrite <- (grid_prices_length n c p call len_time Hv).
    rewrite <- (length_map (fun p0 => Feqb (np_round2 p0) (np_round2 (Fin obs)))).
    apply np_where_bound.
  - rewrite grid_prices_invalid in Hm by exact Hv. discriminate.
Qed.

(* A match among the first [k] candidate yields is the first match. *)
Lemma where_from_app (c1 c2 : list bool) :
  forall k, where_from k (c1 ++ c2)
            = where_from k c1 ++ where_from (k + List.length c1) c2.
Proof.
  induction c1 as [|b c1 IH]; intros k; simpl.
  - rewrite Nat.add_0_r. reflexivity.
  - rewrite IH. replace (S k + List.length c1)%nat with (k + S (List.length c1))%nat by lia.
    destruct b; reflexivity.
Qed.

Lemma first_exact_match_prefix {A} (g : A -> bool) (l : list A) (k i : nat) :
  hd_error (np_where (map g (firstn k l))) = Some i ->
  hd_error (np_where (map g l)) = Some i.
Proof.
  intros H. rewrite <- (firstn_skipn k l), map_app.
  unfold np_where in *. rewrite where_from_app.
  destruct (where_from 0 (map g (firstn k l))); simpl in *; [discriminate|auto].
Qed.

(** ** Par-date pricing of one bond at one yield *)

Lemma bond_price_calc_scalar (n : Z) (c p y call : Q) (len_time : string)
  (details : bool) :
  valid_len_time len_time = true ->
  value (bond_price_calc (Scalar n) (Scalar c) (Scalar p) (Scalar y) call
           len_time details)
  = Ok (let '(a, b, t) := grid_price_at n c p call len_time y in
        Prices (Scalar a) (Scalar b) (Scalar t)).
Proof.
  intros Hv. unfold bond_price_calc.
  cbn [size Nat.eqb negb orb].
  unfold valid_len_time in Hv. rewrite Hv. cbn [negb].
  fold (period_of len_time).
  unfold grid_price_at, coupon_pay_of, redemption_of.
  destruct details; destruct (Qpos call); reflexivity.
Qed.


Lemma period_of_valid (len_time : string) :
  valid_len_time len_time = true ->
  period_of len_time = 1 \/ period_of len_time = 2.
Proof.
  unfold valid_len_time, period_of. intros Hv.
  destruct (String.eqb_spec (lower len_time) "semiannual") as [E|_].
  - rewrite E. right. reflexivity.
  - rewrite orb_false_l in Hv. rewrite Hv. left. reflexivity.
Qed.



Lemma first_match_10_5_1000 :
  first_exact_match (grid_prices 10 0.05 1000 0 "annual") 926.39 = Some 5%nat.
Proof.
  rewrite grid_prices_valid by reflexivity.
  unfold first_exact_match. rewrite map_map.
  apply (first_exact_match_prefix _ _ 6).
  vm_compute. reflexivity.
Defined.

(** ** The required yield 0 *)

Lemma Qzero_true (q : Q) : (q == 0)%Q -> Qzero q = true.
Proof. intros H. apply Qeq_bool_iff. exact H. Qed.

Lemma Qzero_false (q : Q) : ~ (q == 0)%Q -> Qzero q = false.
Proof.
  intros H. unfold Qzero. destruct (Qeq_bool q 0) eqn:E; auto.
  apply Qeq_bool_iff in E. contradiction.
Qed.

(* At a zero yield the annuity factor is 0/0. *)
Lemma price_at_zero_yield (n : Z) (cp rp y : Q) :
  (y == 0)%Q ->
  exists pp, price_at n cp rp y = (NaN, pp, NaN) /\ pp =f= np_round2 (Fin rp).
Proof.
  intros Hy.
  assert (Hpw : ((1 + y) ^ n == 1)%Q).
  { rewrite Hy. setoid_replace (1 + 0)%Q with 1%Q by ring. apply Qpower_1. }
  assert (E1 : Qzero (1 + y) = false).
  { apply Qzero_false. rewrite Hy. discriminate. }
  assert (E2 : Qzero ((1 + y) ^ n) = false).
  { apply Qzero_false. rewrite Hpw. discriminate. }
  assert (E3 : Qzero (1 + - (1 / (1 + y) ^ n)) = true).
  { apply Qzero_true. rewrite Hpw. reflexivity. }
  assert (E4 : Qzero y = true) by (apply Qzero_true; exact Hy).
  unfold price_at, np_power. rewrite E1.
  cbn [Fdiv]. rewrite E2.
  cbn [Fsub Fopp Fadd Fdiv]. rewrite E4, E3.
  cbn [Fmul].
  exists (np_round2 (Fin (rp * (1 / (1 + y) ^ n)))). split.
  - cbn [np_round2 Fadd]. reflexivity.
  - apply (np_round2_compat (Fin _) (Fin _)). cbn [Feq]. rewrite Hpw. field.
Qed.

(** ** Settlement not before maturity *)

(* With recognised frequency and price basis, a settlement date that is
   not before the maturity date makes bond_price_calc_sett return the
   first character of the message of time_ratio_calc. *)
Lemma sett_date_order (power : F -> F -> F) (mat_date sett_date : Z)
  (coupon_per par_val req_yield_per : Q) (price date_calc len_time : string)
  (details : bool) :
  valid_len_time len_time = true ->
  valid_price price = true ->
  mat_date <= sett_date ->
  bond_price_calc_sett power (mat_date, sett_date) coupon_per par_val
    req_yield_per price date_calc len_time details
  = ret (SMsg "S").
Proof.
  intros Hv Hp Hd. unfold bond_price_calc_sett.
  unfold valid_len_time in Hv. unfold valid_price in Hp.
  rewrite Hv, Hp. cbn [negb fst snd].
  unfold time_ratio_calc.
  apply Z.leb_le in Hd. rewrite Hd. reflexivity.
Qed.

(** ** The Gregorian cycle and the day-count ratios *)

Lemma days_from_civil_shift (y m d j : Z) :
  days_from_civil (y + 400 * j) m d = days_from_civil y m d + 146097 * j.
Proof.
  unfold days_from_civil. cbv zeta.
  replace (if m <=? 2 then y + 400 * j - 1 else y + 400 * j)
    with ((if m <=? 2 then y - 1 else y) + j * 400)
    by (destruct (m <=? 2); ring).
  rewrite Z.div_add by lia.
  set (y' := if m <=? 2 then y - 1 else y).
  set (doy := (153 * (if m >? 2 then m - 3 else m + 9) + 2) / 5 + d - 1).
  replace (y' + j * 400 - (y' / 400 + j) * 400) with (y' - y' / 400 * 400) by ring.
  ring.
Qed.

Lemma month_to_day_shift (m j : Z) :
  month_to_day (m + 4800 * j) = month_to_day m + 146097 * j.
Proof.
  unfold month_to_day.
  replace (m + 4800 * j) with (m + (400 * j) * 12) by ring.
  rewrite Z.div_add, Z.mod_add by lia.
  rewrite Z.add_assoc. apply days_from_civil_shift.
Qed.

Lemma to_month_shift (d j : Z) :
  to_month (d + 146097 * j) = to_month d + 4800 * j.
Proof.
  unfold to_month, civil_from_days.
  replace (d + 146097 * j + 719468) with (d + 719468 + j * 146097) by ring.
  rewrite Z.div_add by lia.
  set (era := (d + 719468) / 146097).
  replace (d + 719468 + j * 146097 - (era + j) * 146097)
    with (d + 719468 - era * 146097) by ring.
  set (doe := d + 719468 - era * 146097).
  cbv zeta.
  destruct (_ <=? 2); ring.
Qed.

Lemma half_year_days_shift (m j : Z) :
  half_year_days (m + 4800 * j) = half_year_days m.
Proof.
  unfold half_year_days.
  rewrite (month_to_day_shift m j).
  rewrite (to_month_shift (month_to_day m) j).
  generalize (to_month (month_to_day m)). intros t.
  assert (E : t + 4800 * j - 6 = t - 6 + 4800 * j) by lia.
  rewrite E.
  rewrite (month_to_day_shift (t - 6) j).
  generalize (month_to_day (t - 6)) (month_to_day m). intros a b. lia.
Qed.

Lemma half_year_days_cycle :
  forallb (fun i => 0 <? half_year_days (Z.of_nat i)) (seq 0 4800) = true.
Proof. vm_compute. reflexivity. Qed.

Lemma half_year_days_pos (m : Z) : 0 < half_year_days m.
Proof.
  rewrite (Z.div_mod m 4800) at 1 by lia.
  rewrite (Z.add_comm (4800 * (m / 4800))).
  rewrite (half_year_days_shift (m mod 4800) (m / 4800)).
  pose proof (Z.mod_pos_bound m 4800 ltac:(lia)) as Hb.
  pose proof half_year_days_cycle as H.
  rewrite forallb_forall in H.
  specialize (H (Z.to_nat (m mod 4800))).
  rewrite Z2Nat.id in H by lia.
  apply Z.ltb_lt. apply H. apply in_seq. lia.
Qed.

Lemma Fdiv_FZ (x d : Z) :
  d <> 0 -> Fdiv (FZ x) (FZ d) = Fin (inject_Z x / inject_Z d).
Proof.
  intros Hd. unfold FZ. cbn [Fdiv].
  rewrite Qzero_false; [reflexivity|].
  intros H. apply Hd. unfold Qeq in H. simpl in H. lia.
Qed.

Lemma actual_time_ratio_finite (m sd2 period : Z) :
  exists qt qa, actual_time_ratio_calc (month_to_day m) sd2 period = (Fin qt, Fin qa).
Proof.
  unfold actual_time_ratio_calc. cbv zeta.
  fold (half_year_days m).
  pose proof (half_year_days_pos m) as Hp.
  rewrite !Fdiv_FZ by lia. eauto.
Qed.

Lemma thirtysixty_time_ratio_finite (sd1 dr2 td3 period : Z) :
  period <> 0 ->
  exists qt qa, thirtysixty_time_ratio_calc sd1 dr2 td3 period = (Fin qt, Fin qa).
Proof.
  intros Hp. unfold thirtysixty_time_ratio_calc. cbv zeta.
  rewrite !Fdiv_FZ by lia. eauto.
Qed.

(* The ratios that time_ratio_calc returns are numbers. *)
Lemma time_ratio_finite (mat_date sett_date k : Z) (date_calc len_time : string)
  (t a : F) :
  k = 1 \/ k = 2 ->
  time_ratio_calc mat_date sett_date k date_calc len_time = Ratios t a ->
  exists qt qa, t = Fin qt /\ a = Fin qa.
Proof.
  intros Hk. unfold time_ratio_calc.
  destruct (mat_date <=? sett_date); [discriminate|].
  destruct (negb _); [discriminate|].
  unfold next_pay_date_calc. cbv zeta.
  set (dr := month_to_day (to_month sett_date + 1) - 1 - sett_date).
  set (td := if dr >? 0 then _ else _).
  destruct (thirtysixty_time_ratio_finite sett_date dr td (12 / k))
    as (q1 & q2 & ->); [destruct Hk as [-> | ->]; discriminate|].
  destruct (actual_time_ratio_finite (to_month sett_date + td) sett_date (12 / k))
    as (q3 & q4 & ->).
  cbn [fst snd].
  destruct (String.eqb date_calc "3060"), (String.eqb date_calc "actual");
    cbn [Fadd]; destruct (Feqb _ _); try discriminate;
    intros [= <- <-]; eauto.
Qed.

(** ** Clean and dirty price on a settlement date *)

Section SettlementFacts.

Variable power : F -> F -> F.

Lemma update_last_cons {A} (f : A -> A) (x : A) (l : list A) :
  exists y l', update_last f (x :: l) = y :: l'.
Proof. destruct l; simpl; eauto. Qed.

Lemma bond_cash_flow_calc_annual (n : Z) (c p : Q) (details : bool) :
  exists out,
    bond_cash_flow_calc (Scalar n) (Scalar c) (Scalar p) "annual" details
    = (out, Ok (CashFlow (Scalar (p * rate_format (c / inject_Z 1))%Q) (Scalar p)
                  (Scalar (n * 1)))).
Proof. destruct details; eexists; reflexivity. Qed.

(* A returned price is the sum of the discounted flows, the first one
   reduced by the accrued interest when the basis is clean; the call
   with another recognised basis then returns its own sum. *)
Lemma sett_structure (mat_date sett_date : Z) (c p y : Q)
  (price price' date_calc len_time : string) (details : bool) (x : F) :
  valid_price price' = true ->
  value (bond_price_calc_sett power (mat_date, sett_date) c p y price date_calc
           len_time details) = Ok (SPrice x) ->
  exists t a b0 rest,
    valid_len_time len_time = true /\
    time_ratio_calc mat_date sett_date (period_of len_time) date_calc len_time
    = Ratios t a /\
    discounted_flows power (sett_bond_len mat_date sett_date len_time) t
      (coupon_pay_of c p len_time) p
      (rate_format (y / inject_Z (period_of len_time))) = b0 :: rest /\
    x = np_sum ((if String.eqb (lower price) "clean"
                 then Fsub b0 (Fmul (Fin (coupon_pay_of c p len_time)) a)
                 else b0) :: rest) /\
    value (bond_price_calc_sett power (mat_date, sett_date) c p y price' date_calc
             len_time details)
    = Ok (SPrice (np_sum ((if String.eqb (lower price') "clean"
                           then Fsub b0 (Fmul (Fin (coupon_pay_of c p len_time)) a)
                           else b0) :: rest))).
Proof.
  intros Hp'. unfold bond_price_calc_sett. cbn [fst snd].
  unfold valid_price in Hp'. rewrite Hp'. cbn [negb].
  fold (valid_len_time len_time).
  destruct (valid_len_time len_time); cbn [negb]; [|discriminate].
  destruct (negb _); [discriminate|].
  fold (period_of len_time). fold (sett_bond_len mat_date sett_date len_time).
  destruct (time_ratio_calc mat_date sett_date (period_of len_time) date_calc len_time)
    as [s|t a].
  - cbn [ratio_index]. unfold str_index.
    destruct (get 0 s); [|discriminate].
    cbn [bind ret app]. destruct (get 1 s); discriminate.
  - cbn [ratio_index Nat.eqb bind ret app].
    destruct (bond_cash_flow_calc_annual (sett_bond_len mat_date sett_date len_time)
                (rate_format (c / inject_Z (period_of len_time))) p details)
      as [out ->].
    fold (coupon_pay_of c p len_time).
    cbn [bind].
    intros H. exists t, a. revert H.
    unfold discounted_flows.
    set (nb := if is_integer t then _ else _).
    destruct (nb <? 0); [discriminate|].
    destruct (Z.to_nat nb) as [|m]; [discriminate|].
    cbn [repeat].
    destruct (update_last_cons (fun c1 => Fadd c1 (Fin p))
                (Fin (coupon_pay_of c p len_time))
                (repeat (Fin (coupon_pay_of c p len_time)) m)) as (y0 & l' & ->).
    cbn [seq map combine fst snd].
    intros H. do 2 eexists.
    split; [reflexivity|]. split; [reflexivity|]. split; [reflexivity|].
    revert H.
    destruct details; destruct (String.eqb (lower price) "clean");
      destruct (String.eqb (lower price) "dirty");
      destruct (String.eqb (lower price') "clean");
      destruct (String.eqb (lower price') "dirty");
      cbn; intros [= <-]; split; reflexivity.
Qed.

End SettlementFacts.

Lemma Fadd_fin_inv (x y : F) (s : Q) :
  Fadd x y = Fin s -> exists a b, x = Fin a /\ y = Fin b /\ s = (a + b)%Q.
Proof.
  destruct x as [a| | |], y as [b| | |]; simpl; try discriminate.
  intros [= <-]. eauto.
Qed.

(* A finite sum has finite terms. *)
Lemma fold_Fadd_fin (l : list F) :
  forall x s, fold_left Fadd l x = Fin s ->
    exists qx r, x = Fin qx /\ (s == qx + r)%Q /\
      forall x', fold_left Fadd l (Fin x') =f= Fin (x' + r).
Proof.
  induction l as [|a l IH]; intros x s H; simpl in H.
  - exists s, 0%Q. repeat split; auto.
    + ring.
    + intros x'. simpl. ring.
  - apply IH in H. destruct H as (q1 & r1 & Hq1 & Hs & Hall).
    apply Fadd_fin_inv in Hq1. destruct Hq1 as (qx & qa & -> & -> & ->).
    exists qx, (qa + r1)%Q. repeat split; auto.
    + rewrite Hs. ring.
    + intros x'. simpl.
      transitivity (Fin (x' + qa + r1)); [apply Hall|].
      simpl. ring.
Qed.

(* In exact arithmetic the dirty price minus the clean price is the
   accrued interest, the coupon amount times the accrued ratio.  (In
   float64 the two sums are rounded: see [Binary64].) *)
Lemma clean_dirty_in_exact_arithmetic (power : F -> F -> F) (mat_date sett_date : Z)
  (coupon_per par_val req_yield_per : Q) (date_calc len_time : string)
  (details : bool) (dirty : Q) :
  value (bond_price_calc_sett power (mat_date, sett_date) coupon_per par_val
           req_yield_per "dirty" date_calc len_time details)
  = Ok (SPrice (Fin dirty)) ->
  exists (clean : Q) (time_ratio ai_ratio : F) (accrued_interest : Q),
    value (bond_price_calc_sett power (mat_date, sett_date) coupon_per par_val
             req_yield_per "clean" date_calc len_time details)
    = Ok (SPrice (Fin clean)) /\
    time_ratio_calc mat_date sett_date (period_of len_time) date_calc len_time
    = Ratios time_ratio ai_ratio /\
    Fmul (Fin (coupon_pay_of coupon_per par_val len_time)) ai_ratio
    = Fin accrued_interest /\
    (dirty - clean == accrued_interest)%Q.
Proof.
  intros Hd.
  apply (sett_structure power _ _ _ _ _ "dirty" "clean") in Hd; [|reflexivity].
  destruct Hd as (t & a & b0 & rest & Hv & Ht & Hf & Hd & Hc).
  destruct (time_ratio_finite _ _ _ _ _ _ _ (period_of_valid _ Hv) Ht)
    as (qt & qa & -> & ->).
  change (String.eqb (lower "dirty") "clean") with false in Hd.
  change (String.eqb (lower "clean") "clean") with true in Hc.
  unfold np_sum in Hd, Hc. cbn [fold_left] in Hd, Hc.
  symmetry in Hd.
  destruct (fold_Fadd_fin _ _ _ Hd) as (qd & r & Hqd & Hsd & Hall).
  apply Fadd_fin_inv in Hqd. destruct Hqd as (z & q0 & [= <-] & -> & ->).
  set (cp := coupon_pay_of coupon_per par_val len_time) in *.
  cbn [Fmul Fsub Fopp Fadd] in Hc.
  pose proof (Hall (0 + (q0 + - (cp * qa)))%Q) as Hcl.
  destruct (fold_left Fadd rest (Fin (0 + (q0 + - (cp * qa)))))
    as [cl| | |]; try contradiction.
  cbn [Feq] in Hcl.
  exists cl, (Fin qt), (Fin qa), (cp * qa)%Q.
  repeat split; auto.
  rewrite Hsd, Hcl. ring.
Qed.

(** ** An observed price above every grid price *)

Lemma rint_le (q : Q) : (inject_Z (rint q) <= q + 1)%Q.
Proof.
  unfold rint. cbv zeta. pose proof (Qfloor_le q) as Hf.
  destruct (Qcompare _ _); [destruct (Z.even _)| |];
    rewrite ?inject_Z_plus; change (inject_Z 1) with 1%Q; lra.
Qed.

Lemma rint_ge (q : Q) : (q - 1 <= inject_Z (rint q))%Q.
Proof.
  unfold rint. cbv zeta. pose proof (Qlt_floor q) as Hf.
  rewrite inject_Z_plus in Hf. change (inject_Z 1) with 1%Q in Hf.
  destruct (Qcompare _ _); [destruct (Z.even _)| |];
    rewrite ?inject_Z_plus; change (inject_Z 1) with 1%Q; lra.
Qed.

Lemma round2_le (q : Q) : (inject_Z (rint (q * 100)) / 100 <= q + 0.01)%Q.
Proof.
  pose proof (rint_le (q * 100)) as H.
  apply Qle_shift_div_r; [reflexivity|]. lra.
Qed.

Lemma round2_ge (q : Q) : (q - 0.01 <= inject_Z (rint (q * 100)) / 100)%Q.
Proof.
  pose proof (rint_ge (q * 100)) as H.
  apply Qle_shift_div_l; [reflexivity|]. lra.
Qed.

(* For a yield of at least 0.5% per period the total price is at most
   200 coupons plus the redemption amount, up to the roundings. *)
Lemma price_at_bound (n : Z) (cp rp y : Q) :
  0 <= n -> (0 <= cp)%Q -> (0 <= rp)%Q -> (1 # 200 <= y)%Q ->
  exists q, snd (price_at n cp rp y) = Fin q /\ (q <= 200 * cp + rp + 0.03)%Q.
Proof.
  intros Hn Hcp Hrp Hy.
  assert (Hpw : (1 <= (1 + y) ^ n)%Q) by (apply Qpower_1_le; [lra|exact Hn]).
  assert (E1 : Qzero (1 + y) = false) by (apply Qzero_false; lra).
  assert (E2 : Qzero ((1 + y) ^ n) = false) by (apply Qzero_false; lra).
  assert (E3 : Qzero y = false) by (apply Qzero_false; lra).
  set (pw := ((1 + y) ^ n)%Q) in *.
  assert (Hdf : (0 < 1 / pw <= 1)%Q).
  { split.
    - unfold Qdiv. rewrite Qmult_1_l. apply Qinv_lt_0_compat. lra.
    - apply Qle_shift_div_r; lra. }
  set (df := (1 / pw)%Q) in *.
  assert (Haf : ((1 + - df) / y <= 200)%Q) by (apply Qle_shift_div_r; lra).
  assert (Haf0 : (0 <= (1 + - df) / y)%Q) by (apply Qle_shift_div_l; lra).
  set (af := ((1 + - df) / y)%Q) in *.
  assert (Hx1 : (cp * af <= 200 * cp)%Q).
  { rewrite (Qmult_comm cp af). apply Qmult_le_compat_r; assumption. }
  assert (Hx2 : (rp * df <= rp)%Q).
  { rewrite <- (Qmult_1_r rp) at 2. rewrite !(Qmult_comm rp).
    apply Qmult_le_compat_r; lra. }
  unfold price_at, np_power. rewrite E1. fold pw.
  cbn [Fdiv]. rewrite E2. fold df.
  cbn [Fsub Fopp Fadd Fdiv]. rewrite E3. fold af.
  cbn [Fmul np_round2 Fadd snd].
  eexists. split; [reflexivity|].
  pose proof (round2_le (cp * af)) as R1.
  pose proof (round2_le (rp * df)) as R2.
  set (r1 := (inject_Z (rint (cp * af * 100)) / 100)%Q) in *.
  set (r2 := (inject_Z (rint (rp * df * 100)) / 100)%Q) in *.
  pose proof (round2_le (r1 + r2)) as R3.
  set (r3 := (inject_Z (rint ((r1 + r2) * 100)) / 100)%Q) in *.
  lra.
Qed.

(* The per-period yield used for a candidate is at least 0.5%. *)
Lemma grid_yield_ge (g : Q) (k : Z) :
  k = 1 \/ k = 2 -> (1 # 100 <= g)%Q -> (1 # 200 <= rate_format (g / inject_Z k))%Q.
Proof.
  intros Hk Hg.
  assert (Hx : (1 # 200 <= g / inject_Z k)%Q).
  { destruct Hk as [-> | ->]; apply Qle_shift_div_l; try reflexivity;
      change (inject_Z 1) with 1%Q; change (inject_Z 2) with 2%Q; lra. }
  set (x := (g / inject_Z k)%Q) in *.
  unfold rate_format. destruct (Qle_bool x 1) eqn:E; cbn [negb]; auto.
  apply Qle_bool_false in E. apply Qle_shift_div_l; [reflexivity|]. lra.
Qed.

(* An observed price above the bound makes the lookup index the sorted
   prices one past their end. *)
Lemma solver_above_range (n : Z) (c p obs call : Q) (len_time : string)
  (details : bool) :
  valid_len_time len_time = true ->
  0 <= n ->
  (0 <= coupon_pay_of c p len_time)%Q ->
  (0 <= redemption_of p call)%Q ->
  (200 * coupon_pay_of c p len_time + redemption_of p call + 0.04 < obs)%Q ->
  value (bond_yield_maturity_calc (Scalar n) (Scalar c) obs (Scalar p) call
           len_time details)
  = Raise IndexError.
Proof.
  intros Hv Hn Hcp Hrp Hobs.
  rewrite solver_on_grid by exact Hv.
  rewrite nearest_match_above; [reflexivity|apply grid_prices_rounded|].
  rewrite grid_prices_valid by exact Hv.
  apply Forall_forall. intros x Hx. apply in_map_iff in Hx.
  destruct Hx as (g & <- & Hg).
  apply req_yield_pers_ge in Hg.
  pose proof (period_of_valid len_time Hv) as Hk.
  destruct (price_at_bound (n * period_of len_time)
              (coupon_pay_of c p len_time) (redemption_of p call)
              (rate_format (g / inject_Z (period_of len_time))))
    as (q & Hq & Hle); auto.
  - destruct Hk as [-> | ->]; lia.
  - apply grid_yield_ge; auto.
  - unfold grid_price_at. rewrite Hq.
    unfold sort_lt. cbn [np_round2 Fltb isnan andb orb].
    rewrite orb_false_r. apply negb_true_iff.
    destruct (Qle_bool _ q) eqn:E; auto.
    apply Qle_bool_iff in E. pose proof (round2_ge obs) as R.
    set (ro := (inject_Z (rint (obs * 100)) / 100)%Q) in *.
    exfalso. lra.
Qed.

(** ** An observed price below every grid price *)

Lemma where_from_nonempty (cond : list bool) :
  forall k j, (j < List.length cond)%nat -> nth j cond false = true ->
    exists i, hd_error (where_from k cond) = Some i.
Proof.
  induction cond as [|b cond IH]; intros k j Hj Hn; simpl in *.
  - lia.
  - destruct b; [eexists; reflexivity|].
    destruct j as [|j]; [discriminate|].
    apply (IH (S k) j); [lia|exact Hn].
Qed.

Lemma sort_lt_asym (x y : F) : sort_lt x y = true -> sort_lt y x = false.
Proof.
  unfold sort_lt.
  destruct x as [a| | |], y as [b| | |]; simpl; auto; try discriminate.
  rewrite !orb_false_r. intros H. apply negb_true_iff in H.
  apply negb_false_iff. apply Qle_bool_false in H.
  apply Qle_bool_iff. apply Qlt_le_weak. exact H.
Qed.

Lemma Feqb_refl_finite (x : F) : is_finite x = true -> Feqb x x = true.
Proof.
  destruct x; simpl; try discriminate. intros _. apply Qeq_bool_refl.
Qed.

Lemma sort_le_compat (x x' y y' : F) :
  x =f= x' -> y =f= y' -> sort_le x y = sort_le x' y'.
Proof.
  intros Hx Hy. unfold sort_le. f_equal. apply sort_lt_compat; auto.
Qed.

(* The lookup for an observed price below every price. *)
Section Below.

Variable prices : list F.
Variable bond_price : Q.
Hypothesis rounded : Forall is_rounded prices.

Lemma nearest_match_below :
  prices <> [] ->
  Forall (fun p => sort_lt (np_round2 (Fin bond_price)) p = true) prices ->
  Forall (fun p => is_finite p = true) prices ->
  exists idx i,
    nearest_match (inr (Vec prices)) bond_price = ret idx /\
    hd_error idx = Some i /\
    Forall (fun j => (j < List.length prices)%nat) idx /\
    forall p, In p prices -> sort_le (nth i prices NaN) p = true.
Proof.
  intros Hne Hall Hfin.
  set (target := np_round2 (Fin bond_price)) in *.
  set (ordered := FloatSort.sort prices).
  assert (Hperm : Permutation prices ordered) by apply FloatSort.Permuted_sort.
  assert (Hlen : List.length ordered = List.length prices)
    by (symmetry; apply Permutation_length; exact Hperm).
  assert (Hpos : (0 < List.length prices)%nat).
  { destruct prices; [contradiction|simpl; lia]. }
  destruct (searchsorted_ordered prices bond_price rounded)
    as (c & Hc & Hle & Hlo & Hhi).
  fold ordered in Hc, Hle, Hlo, Hhi. fold target in Hc, Hlo, Hhi.
  set (key := nth 0 ordered NaN).
  assert (Hkin : In key prices).
  { apply Permutation_in with (l := ordered); [apply Permutation_sym; exact Hperm|].
    apply nth_In. lia. }
  assert (Hc0 : c = 0%nat).
  { destruct c as [|c]; auto. exfalso.
    assert (Hb : below target key = true) by (apply Hlo; lia).
    rewrite Forall_forall in Hall. apply Hall in Hkin.
    apply sort_lt_asym in Hkin. unfold below in Hb. congruence. }
  rewrite Hc0 in Hc.
  unfold nearest_match. fold ordered. fold target. rewrite Hc.
  rewrite (index_nth ordered 0 NaN) by lia. rewrite bind_ret. fold key.
  set (cond := map (fun p => Feqb p key) prices).
  destruct (In_nth prices key NaN Hkin) as (j & Hj & Hnj).
  destruct (where_from_nonempty cond 0 j) as [i Hi].
  { unfold cond. rewrite length_map. exact Hj. }
  { unfold cond. change false with ((fun p => Feqb p key) NaN).
    rewrite map_nth, Hnj. apply Feqb_refl_finite.
    rewrite Forall_forall in Hfin. apply Hfin. exact Hkin. }
  exists (np_where cond), i. split; [reflexivity|]. split; [exact Hi|].
  split.
  { pose proof (np_where_bound cond) as Hb. unfold cond in Hb at 1.
    rewrite length_map in Hb. exact Hb. }
  intros p Hp.
  apply np_where_hd in Hi. destruct Hi as [Hi1 Hi2].
  unfold cond in Hi2. change false with ((fun p => Feqb p key) NaN) in Hi2.
  rewrite map_nth in Hi2. apply Feqb_Feq in Hi2.
  rewrite (sort_le_compat _ key p p Hi2 (reflexivity _)).
  assert (Hpo : In p ordered) by (apply Permutation_in with (l := prices); auto).
  destruct (In_nth ordered p NaN Hpo) as (k & Hk & Hnk).
  destruct k as [|k].
  - unfold key. rewrite Hnk. apply sort_le_refl.
  - rewrite <- Hnk. unfold key.
    apply (StronglySorted_nth _ ordered NaN (ordered_sorted prices)). lia.
Qed.
End Below.

(* The grid has 9999 candidates. *)
Lemma req_yield_pers_length : List.length req_yield_pers = Z.to_nat 9999.
Proof. vm_compute. reflexivity. Qed.

Lemma price_at_finite (n : Z) (cp rp y : Q) :
  (0 < y)%Q -> is_finite (snd (price_at n cp rp y)) = true.
Proof.
  intros Hy.
  assert (Hpw : (0 < (1 + y) ^ n)%Q) by (apply Qpower_0_lt; lra).
  assert (E1 : Qzero (1 + y) = false) by (apply Qzero_false; lra).
  assert (E2 : Qzero ((1 + y) ^ n) = false) by (apply Qzero_false; lra).
  assert (E3 : Qzero y = false) by (apply Qzero_false; lra).
  unfold price_at, np_power. rewrite E1.
  cbn [Fdiv]. rewrite E2.
  cbn [Fsub Fopp Fadd Fdiv]. rewrite E3.
  reflexivity.
Qed.

Lemma grid_prices_finite (n : Z) (c p call : Q) (len_time : string) :
  Forall (fun x => is_finite x = true) (grid_prices n c p call len_time).
Proof.
  destruct (valid_len_time len_time) eqn:Hv.
  - rewrite grid_prices_valid by exact Hv.
    apply Forall_forall. intros x Hx. apply in_map_iff in Hx.
    destruct Hx as (g & <- & Hg). apply req_yield_pers_ge in Hg.
    apply price_at_finite.
    pose proof (grid_yield_ge g _ (period_of_valid len_time Hv) Hg). lra.
  - rewrite grid_prices_invalid by exact Hv. constructor.
Qed.

(* An observed price below every grid price: the lookup returns the
   candidate at the first position of the lowest grid price. *)
Lemma solver_below_range (n : Z) (c p obs call : Q) (len_time : string)
  (details : bool) :
  valid_len_time len_time = true ->
  Forall (fun x => sort_lt (np_round2 (Fin obs)) x = true)
         (grid_prices n c p call len_time) ->
  exists i,
    value (bond_yield_maturity_calc (Scalar n) (Scalar c) obs (Scalar p) call
             len_time details) = Ok (nth i req_yield_pers 0%Q) /\
    forall x, In x (grid_prices n c p call len_time) ->
              sort_le (nth i (grid_prices n c p call len_time) NaN) x = true.
Proof.
  intros Hv Hall.
  destruct (nearest_match_below (grid_prices n c p call len_time) obs
              (grid_prices_rounded _ _ _ _ _))
    as (idx & i & Hnm & Hhd & Hb & Hmin); auto.
  - intros E. apply (f_equal (@List.length F)) in E.
    rewrite grid_prices_length, req_yield_pers_length in E by exact Hv.
    discriminate.
  - apply grid_prices_finite.
  - exists i. split; [|exact Hmin].
    rewrite solver_on_grid by exact Hv. rewrite Hnm, bind_ret.
    apply lookup_result_value; auto.
    rewrite <- (grid_prices_length n c p call len_time Hv). exact Hb.
Qed.

(** ** The report flag *)

(* The value returned by the solver does not depend on [details]. *)
Lemma solver_details (bond_len : nd Z) (coupon_per : nd Q) (bond_price : Q)
  (par_val : nd Q) (call_val : Q) (len_time : string) :
  value (bond_yield_maturity_calc bond_len coupon_per bond_price par_val call_val
           len_time true)
  = value (bond_yield_maturity_calc bond_len coupon_per bond_price par_val call_val
             len_time false).
Proof.
  unfold bond_yield_maturity_calc.
  rewrite !value_bind.
  destruct (value (bond_price_calc _ _ _ _ _ _ _)) as [r|e]; [|reflexivity].
  rewrite !value_bind.
  destruct (value (price_index2 r)) as [bp|e]; [|reflexivity].
  rewrite !value_bind.
  destruct (value (try_except _ _)) as [idx|e]; [|reflexivity].
  unfold lookup_result. rewrite !value_bind.
  destruct (take req_yield_pers idx) as [out [sel|e]]; cbn [value snd bind ret];
    [|reflexivity].
  destruct sel; reflexivity.
Qed.

(* The value returned by bond_price_calc_sett does not depend on
   [details]. *)
Lemma sett_details (power : F -> F -> F) (dates : Z * Z) (c p y : Q)
  (price date_calc len_time : string) :
  value (bond_price_calc_sett power dates c p y price date_calc len_time true)
  = value (bond_price_calc_sett power dates c p y price date_calc len_time false).
Proof.
  unfold bond_price_calc_sett.
  destruct (negb _); [reflexivity|].
  destruct (negb _); [reflexivity|].
  fold (period_of len_time).
  destruct (time_ratio_calc (fst dates) (snd dates) (period_of len_time) date_calc
              len_time) as [s|t a].
  - cbn [ratio_index]. unfold str_index.
    destruct (get 0 s); [|reflexivity].
    cbn [bind ret app]. destruct (get 1 s); reflexivity.
  - cbn [ratio_index Nat.eqb bind ret app].
    set (n := - (- days_to_months (fst dates - snd dates) / (12 / period_of len_time))).
    set (c' := rate_format (c / inject_Z (period_of len_time))).
    destruct (bond_cash_flow_calc_annual n c' p true) as [out1 ->].
    destruct (bond_cash_flow_calc_annual n c' p false) as [out2 ->].
    cbn [bind].
    set (nb := if is_integer t then _ else _).
    destruct (nb <? 0); [reflexivity|].
    destruct (Z.to_nat nb) as [|m]; [reflexivity|].
    cbn [repeat].
    destruct (update_last_cons (fun c1 => Fadd c1 (Fin p))
                (Fin (p * rate_format (c' / inject_Z 1)))
                (repeat (Fin (p * rate_format (c' / inject_Z 1))) m))
      as (y0 & l' & ->).
    cbn [seq map combine fst snd].
    destruct (String.eqb (lower price) "clean");
      destruct (String.eqb (lower price) "dirty"); reflexivity.
Qed.

(** ** Sizes and shapes of the arguments *)

Lemma broadcast2_same_size {A B C} (f : A -> B -> C) (x : nd A) (y : nd B) :
  size x = size y ->
  exists z, broadcast2 f x y = ret z /\ size z = size x.
Proof.
  destruct x as [a|l1], y as [b|l2]; cbn [size broadcast2]; intros H.
  - eexists; split; reflexivity.
  - eexists; split; [reflexivity|]. cbn [size]. rewrite length_map. auto.
  - eexists; split; [reflexivity|]. cbn [size]. rewrite length_map. auto.
  - rewrite H, Nat.eqb_refl. eexists; split; [reflexivity|].
    cbn [size]. rewrite length_map, length_combine, H. apply Nat.min_id.
Qed.

Lemma size_ndmap {A B} (f : A -> B) (x : nd A) : size (ndmap f x) = size x.
Proof. destruct x; cbn [size ndmap]; auto. apply length_map. Qed.

Lemma nd_Forall_ndmap {A B} (P : A -> Prop) (Q : B -> Prop) (f : A -> B) (x : nd A) :
  (forall a, P a -> Q (f a)) -> nd_Forall P x -> nd_Forall Q (ndmap f x).
Proof.
  intros H. destruct x as [a|l]; cbn [nd_Forall ndmap]; [apply H|].
  intros Hl. apply Forall_map. revert Hl. apply Forall_impl. exact H.
Qed.

Lemma dims_split {A B C} (bl : nd A) (c : nd B) (p : nd C) :
  (negb (Nat.eqb (size bl) (size c)) || negb (Nat.eqb (size c) (size p)))%bool
  = negb (sizes_agree bl c p).
Proof. unfold sizes_agree. rewrite negb_andb. reflexivity. Qed.

Lemma broadcast2_shape {A B C} (f : A -> B -> C) (x : nd A) (y : nd B) :
  size x = size y ->
  exists z, broadcast2 f x y = ret z /\ size z = size x /\
            is_1d z = (is_1d x || is_1d y)%bool.
Proof.
  destruct x as [a|l1], y as [b|l2]; cbn [size broadcast2 is_1d orb]; intros H.
  - eexists; repeat split; reflexivity.
  - eexists; split; [reflexivity|]. cbn [size is_1d]. rewrite length_map. auto.
  - eexists; split; [reflexivity|]. cbn [size is_1d]. rewrite length_map. auto.
  - rewrite H, Nat.eqb_refl. eexists; split; [reflexivity|].
    cbn [size is_1d]. rewrite length_map, length_combine, H.
    split; [apply Nat.min_id|reflexivity].
Qed.

Lemma is_1d_ndmap {A B} (f : A -> B) (x : nd A) : is_1d (ndmap f x) = is_1d x.
Proof. destruct x; reflexivity. Qed.

Lemma broadcast2_mismatch {A B C} (f : A -> B -> C) (l1 : list A) (l2 : list B) :
  List.length l1 <> List.length l2 -> List.length l1 <> 1%nat ->
  List.length l2 <> 1%nat ->
  broadcast2 f (Vec l1) (Vec l2) = raise ValueError.
Proof.
  intros H H1 H2. cbn [broadcast2].
  apply Nat.eqb_neq in H. rewrite H.
  destruct l1 as [|a [|a' l1]]; [|simpl in H1; lia|];
    destruct l2 as [|b [|b' l2]]; try reflexivity; simpl in H2; lia.
Qed.

(* The outcomes of bond_cash_flow_calc without the report. *)
Lemma cash_flow_outcome (bond_len : nd Z) (coupon_per par_val : nd Q)
  (len_time : string) :
  exists r,
    bond_cash_flow_calc bond_len coupon_per par_val len_time false = ret r /\
    match r with
    | CFMsg s =>
        (sizes_agree bond_len coupon_per par_val = false /\
         s = "Incorrect argument dimensions"%string) \/
        (sizes_agree bond_len coupon_per par_val = true /\
         valid_len_time len_time = false /\
         s = "Incorrect period length description"%string)
    | CashFlow coupon_pay par bond_len' =>
        sizes_agree bond_len coupon_per par_val = true /\
        valid_len_time len_time = true /\
        par = par_val /\
        bond_len' = ndmap (fun n => n * period_of len_time) bond_len /\
        size coupon_pay = size bond_len
    end.
Proof.
  unfold bond_cash_flow_calc. rewrite dims_split.
  destruct (sizes_agree bond_len coupon_per par_val) eqn:Hs; cbn [negb].
  2:{ eexists. split; [reflexivity|]. left. auto. }
  fold (valid_len_time len_time).
  destruct (valid_len_time len_time) eqn:Hv; cbn [negb].
  2:{ eexists. split; [reflexivity|]. right. auto. }
  assert (Hp : (if String.eqb (lower len_time) "semiannual" then 2 else 1)
               = period_of len_time).
  { unfold period_of. unfold valid_len_time in Hv.
    destruct (String.eqb_spec (lower len_time) "semiannual") as [E|_].
    - rewrite E. reflexivity.
    - rewrite orb_false_l in Hv. rewrite Hv. reflexivity. }
  rewrite Hp.
  unfold sizes_agree in Hs. apply andb_true_iff in Hs. destruct Hs as [H1 H2].
  apply Nat.eqb_eq in H1, H2.
  destruct (broadcast2_same_size Qmult par_val
              (ndmap rate_format
                 (ndmap (fun c => (c / inject_Z (period_of len_time))%Q) coupon_per)))
    as (z & -> & Hz).
  { rewrite !size_ndmap. congruence. }
  rewrite !bind_ret. eexists. split; [reflexivity|].
  repeat split; auto. congruence.
Qed.

Lemma cash_flow_annual_ok (bond_len : nd Z) (coupon_per par_val : nd Q) :
  sizes_agree bond_len coupon_per par_val = true ->
  exists z, bond_cash_flow_calc bond_len coupon_per par_val "annual" false
            = ret (CashFlow z par_val (ndmap (fun n => n * 1) bond_len)).
Proof.
  intros Hs.
  destruct (cash_flow_outcome bond_len coupon_per par_val "annual")
    as (r & Hr & Hcase).
  rewrite Hr. destruct r as [s|z p' b'].
  - destruct Hcase as [[H _]|[_ [H _]]]; [congruence|discriminate].
  - destruct Hcase as (_ & _ & -> & -> & _). eauto.
Qed.

(** ** The call value *)

Lemma redemption_of_no_call (p call : Q) :
  (call <= 0)%Q -> redemption_of p call = p.
Proof.
  intros H. unfold redemption_of, Qpos.
  apply Qle_bool_iff in H. rewrite H. reflexivity.
Qed.

Lemma redemption_of_call (p call : Q) :
  (0 < call)%Q -> redemption_of p call = call.
Proof.
  intros H. unfold redemption_of, Qpos.
  destruct (Qle_bool call 0) eqn:E; [|reflexivity].
  apply Qle_bool_iff in E. exfalso. lra.
Qed.

(** ** Nothing is printed before a message is returned *)

Lemma bind_ok_inv {A B} (m : M A) (k : A -> M B) (out : list event) (x : B) :
  bind m k = (out, Ok x) ->
  exists o1 a o2, m = (o1, Ok a) /\ k a = (o2, Ok x) /\ out = o1 ++ o2.
Proof.
  destruct m as [o1 [a|e]]; cbn [bind]; [|discriminate].
  destruct (k a) as [o2 r] eqn:Hk. intros [= <- ->]. eauto 6.
Qed.

Lemma silent_message_intro {A} (is_msg : A -> bool) (m : M A) :
  (forall out r, m = (out, Ok r) -> is_msg r = true -> out = []) ->
  silent_message is_msg m.
Proof.
  intros H. unfold silent_message, value, output.
  destruct m as [out [r|e]]; cbn [fst snd]; auto.
  intros Hm. eapply H; eauto.
Qed.

Lemma cash_flow_message_silent (bond_len : nd Z) (coupon_per par_val : nd Q)
  (len_time : string) (details : bool) :
  silent_message is_cf_msg
    (bond_cash_flow_calc bond_len coupon_per par_val len_time details).
Proof.
  apply silent_message_intro. intros out r. unfold bond_cash_flow_calc.
  destruct (_ || _)%bool; [intros [= <- <-]; reflexivity|].
  destruct (negb _); [intros [= <- <-]; reflexivity|].
  intros H Hm.
  apply bind_ok_inv in H. destruct H as (o1 & a & o2 & _ & H & _).
  apply bind_ok_inv in H. destruct H as (o3 & u & o4 & _ & H & _).
  injection H as _ <-. discriminate.
Qed.

Lemma price_message_silent (bond_len : nd Z) (coupon_per par_val req_yield_per : nd Q)
  (call_val : Q) (len_time : string) (details : bool) :
  silent_message is_price_msg
    (bond_price_calc bond_len coupon_per par_val req_yield_per call_val len_time
       details).
Proof.
  apply silent_message_intro. intros out r. unfold bond_price_calc.
  destruct (_ || _)%bool; [intros [= <- <-]; reflexivity|].
  destruct (negb _); [intros [= <- <-]; reflexivity|].
  intros H Hm.
  apply bind_ok_inv in H. destruct H as (o1 & cf & o2 & _ & H & _).
  destruct cf as [s|cp pv bl]; [discriminate|].
  apply bind_ok_inv in H. destruct H as (o3 & [[a b] t] & o4 & _ & H & _).
  apply bind_ok_inv in H. destruct H as (o5 & u & o6 & _ & H & _).
  injection H as _ <-. discriminate.
Qed.

Lemma sett_message_silent (power : F -> F -> F) (dates : Z * Z)
  (coupon_per par_val req_yield_per : Q) (price date_calc len_time : string)
  (details : bool) :
  silent_message is_sett_msg
    (bond_price_calc_sett power dates coupon_per par_val req_yield_per price
       date_calc len_time details).
Proof.
  apply silent_message_intro. intros out r. unfold bond_price_calc_sett.
  destruct (negb _); [intros [= <- <-]; reflexivity|].
  destruct (negb _); [intros [= <- <-]; reflexivity|].
  destruct (time_ratio_calc _ _ _ _ _) as [s|t a].
  - cbn [ratio_index]. unfold str_index.
    destruct (get 0 s); [|discriminate].
    rewrite !bind_ret.
    destruct (get 1 s); [|discriminate].
    rewrite !bind_ret. intros [= <- <-]. reflexivity.
  - cbn [ratio_index Nat.eqb]. rewrite !bind_ret.
    intros H Hm.
    apply bind_ok_inv in H. destruct H as (o1 & cf & o2 & _ & H & _).
    destruct cf as [s|[cp|l] pv bl]; try discriminate.
    destruct (_ <? 0); [discriminate|].
    destruct (repeat _ _); [discriminate|].
    destruct (map _ _); [discriminate|].
    apply bind_ok_inv in H. destruct H as (o3 & u & o4 & _ & H & _).
    injection H as _ <-. discriminate.
Qed.

(** ** Months of the calendar *)

Lemma month_cycle :
  forallb (fun i => let m := Z.of_nat i in
                    (to_month (month_to_day m) =? m)
                    && (28 <=? month_to_day (m + 1) - month_to_day m)
                    && (month_to_day (m + 1) - month_to_day m <=? 31))
          (seq 0 4800) = true.
Proof. vm_compute. reflexivity. Qed.

Lemma month_facts (m : Z) :
  to_month (month_to_day m) = m /\
  28 <= month_to_day (m + 1) - month_to_day m <= 31.
Proof.
  pose proof (Z.mod_pos_bound m 4800 ltac:(lia)) as Hb.
  pose proof (Z.div_mod m 4800 ltac:(lia)) as E.
  remember (m mod 4800) as r eqn:Hr. remember (m / 4800) as j eqn:Hj.
  clear Hr Hj.
  assert (E' : m = r + 4800 * j) by lia. clear E. subst m.
  pose proof month_cycle as H.
  rewrite forallb_forall in H.
  specialize (H (Z.to_nat r)).
  rewrite Z2Nat.id in H by lia.
  assert (Hin : In (Z.to_nat r) (seq 0 4800)) by (apply in_seq; lia).
  specialize (H Hin). cbv zeta in H.
  apply andb_prop in H. destruct H as [H H3].
  apply andb_prop in H. destruct H as [H1 H2].
  apply Z.eqb_eq in H1. apply Z.leb_le in H2. apply Z.leb_le in H3.
  replace (r + 4800 * j + 1) with (r + 1 + 4800 * j) by lia.
  rewrite (month_to_day_shift (r + 1) j), (month_to_day_shift r j).
  rewrite (to_month_shift (month_to_day r) j).
  rewrite H1. split; [reflexivity|].
  revert H2 H3.
  generalize (month_to_day (r + 1)) (month_to_day r). intros; lia.
Qed.

(** ** The two ratios of a day count *)

Lemma ratio_pair (n d : Z) :
  d <> 0 ->
  exists qt qa,
    Fdiv (FZ n) (FZ d) = Fin qt /\ Fdiv (FZ (d - n)) (FZ d) = Fin qa /\
    (qt + qa == 1)%Q /\ ((qt == 0)%Q <-> n = 0).
Proof.
  intros Hd. rewrite !Fdiv_FZ by exact Hd.
  do 2 eexists. split; [reflexivity|]. split; [reflexivity|].
  assert (Hq : ~ (inject_Z d == 0)%Q) by (unfold Qeq; simpl; lia).
  split.
  - unfold Z.sub. rewrite inject_Z_plus, inject_Z_opp. field. exact Hq.
  - split.
    + intros H.
      assert (E : (inject_Z n == (inject_Z n / inject_Z d) * inject_Z d)%Q)
        by (field; exact Hq).
      rewrite H in E. unfold Qeq in E. simpl in E. lia.
    + intros ->. unfold Qdiv. apply Qmult_0_l.
Qed.

Lemma thirtysixty_ratio_pair (sd1 dr2 td3 period : Z) :
  period <> 0 ->
  exists qt qa,
    thirtysixty_time_ratio_calc sd1 dr2 td3 period = (Fin qt, Fin qa) /\
    (qt + qa == 1)%Q /\
    ((qt == 0)%Q <->
     (td3 - 1) * 30
     + (if dr2 + (sd1 - (month_to_day (to_month sd1) - 1)) >? 30
        then 30 - (sd1 - (month_to_day (to_month sd1) - 1)) else dr2) + 1 = 0).
Proof.
  intros Hp. unfold thirtysixty_time_ratio_calc. cbv zeta.
  set (n := (td3 - 1) * 30 + _ + 1).
  destruct (ratio_pair n (30 * period) ltac:(lia)) as (qt & qa & -> & -> & Hs & Hz).
  exists qt, qa. auto.
Qed.

Lemma actual_ratio_pair (m sd2 period : Z) :
  exists qt qa,
    actual_time_ratio_calc (month_to_day m) sd2 period = (Fin qt, Fin qa) /\
    (qt + qa == 1)%Q /\
    ((qt == 0)%Q <-> month_to_day m - sd2 = 0).
Proof.
  unfold actual_time_ratio_calc. cbv zeta.
  fold (half_year_days m).
  pose proof (half_year_days_pos m) as Hp.
  destruct (ratio_pair (month_to_day m - sd2) (half_year_days m) ltac:(lia))
    as (qt & qa & -> & -> & Hs & Hz).
  exists qt, qa. auto.
Qed.

(* The next payment date is never the settlement date itself. *)
Lemma next_pay_not_settlement (sd x p : Z) :
  0 < p ->
  month_to_day
    (to_month sd
     + (if month_to_day (to_month sd + 1) - 1 - sd >? 0 then x mod p + 1 else x mod p))
  - sd <> 0.
Proof.
  intros Hp H.
  pose proof (Z.mod_pos_bound x p Hp) as Hm.
  set (td := if _ >? 0 then _ else _) in H.
  destruct (month_facts (to_month sd + td)) as [Hrt _].
  assert (E : month_to_day (to_month sd + td) = sd) by lia.
  rewrite E in Hrt.
  assert (Htd : td = 0) by lia.
  rewrite Htd, Z.add_0_r in E.
  destruct (month_facts (to_month sd)) as [_ Hlen].
  rewrite E in Hlen.
  subst td.
  destruct (month_to_day (to_month sd + 1) - 1 - sd >? 0) eqn:Hdr.
  - lia.
  - rewrite Z.gtb_ltb in Hdr. apply Z.ltb_ge in Hdr. lia.
Qed.

(** ** The day-count ratios of time_ratio_calc *)

Lemma time_ratio_calc_split (mat_date sett_date k : Z) (date_calc len_time : string) :
  k = 1 \/ k = 2 ->
  sett_date < mat_date ->
  (String.eqb (lower date_calc) "3060" || String.eqb (lower date_calc) "actual")%bool
  = true ->
  exists q1 a1 q2 a2,
    (q1 + a1 == 1)%Q /\ (q2 + a2 == 1)%Q /\ ~ (q2 == 0)%Q /\
    ((q1 == 0)%Q <->
     ((if month_to_day (to_month sett_date + 1) - 1 - sett_date >? 0
       then days_to_months (mat_date - sett_date) mod (12 / k) + 1
       else days_to_months (mat_date - sett_date) mod (12 / k)) - 1) * 30
     + (if month_to_day (to_month sett_date + 1) - 1 - sett_date
           + (sett_date - (month_to_day (to_month sett_date) - 1)) >? 30
        then 30 - (sett_date - (month_to_day (to_month sett_date) - 1))
        else month_to_day (to_month sett_date + 1) - 1 - sett_date) + 1 = 0) /\
    time_ratio_calc mat_date sett_date k date_calc len_time
    = if Feqb (Fadd (if String.eqb date_calc "3060" then Fin q1 else Fin 0)
                    (if String.eqb date_calc "actual" then Fin q2 else Fin 0))
              (Fin 0)
      then RMsg "Incorrect timing calculated"
      else Ratios (Fadd (if String.eqb date_calc "3060" then Fin q1 else Fin 0)
                        (if String.eqb date_calc "actual" then Fin q2 else Fin 0))
                  (Fadd (if String.eqb date_calc "3060" then Fin a1 else Fin 0)
                        (if String.eqb date_calc "actual" then Fin a2 else Fin 0)).
Proof.
  intros Hk Hlt Hdc.
  assert (Hp : 0 < 12 / k) by (destruct Hk as [-> | ->]; reflexivity).
  pose proof (next_pay_not_settlement sett_date
                (days_to_months (mat_date - sett_date)) (12 / k) Hp) as Hn.
  unfold time_ratio_calc.
  apply Z.ltb_lt in Hlt. rewrite Z.leb_antisym, Hlt. cbn [negb].
  rewrite Hdc. cbn [negb].
  unfold next_pay_date_calc. cbv zeta.
  set (dr := month_to_day (to_month sett_date + 1) - 1 - sett_date) in *.
  set (td := if dr >? 0 then _ else _) in *.
  destruct (thirtysixty_ratio_pair sett_date dr td (12 / k) ltac:(lia))
    as (q1 & a1 & -> & Hs1 & Hz1).
  destruct (actual_ratio_pair (to_month sett_date + td) sett_date (12 / k))
    as (q2 & a2 & -> & Hs2 & Hz2).
  exists q1, a1, q2, a2. cbn [fst snd].
  split; [exact Hs1|]. split; [exact Hs2|].
  split; [rewrite Hz2; exact Hn|].
  split; [exact Hz1|]. reflexivity.
Qed.







(* Whatever time_ratio_calc returns as a message, bond_price_calc_sett
   returns its first character. *)
Lemma sett_ratio_message (power : F -> F -> F) (mat_date sett_date : Z)
  (c p y : Q) (price date_calc len_time : string) (details : bool)
  (ch ch' : ascii) (rest : string) :
  valid_len_time len_time = true ->
  valid_price price = true ->
  time_ratio_calc mat_date sett_date (period_of len_time) date_calc len_time
  = RMsg (String ch (String ch' rest)) ->
  bond_price_calc_sett power (mat_date, sett_date) c p y price date_calc len_time
    details
  = ret (SMsg (String ch EmptyString)).
Proof.
  intros Hv Hp H. unfold bond_price_calc_sett.
  unfold valid_len_time in Hv. unfold valid_price in Hp.
  rewrite Hv, Hp. cbn [negb fst snd].
  fold (period_of len_time). rewrite H. reflexivity.
Qed.

(** ** The first position of a condition *)



(** ** The lookup in general *)

Section Nearest.

Variable prices : list F.
Variable bond_price : Q.
Hypothesis rounded : Forall is_rounded prices.
Hypothesis finite : Forall (fun p => is_finite p = true) prices.


End Nearest.



(** ** The price on a settlement date in float64 *)

Section Binary64Facts.
Import Floats.

Variable power : float -> float -> float.



End Binary64Facts.

(** * The statements of the specification *)

(** C1. The concrete scenario: tenor 1, coupon rate 5 (percent),
    par value 1000, required yield 6 (percent), no call value, annual
    frequency.  bond_price_calc returns 47.17, 943.40 and 990.57, which
    are the annuity value of the coupon 50 at the yield 0.06, the
    discounted par value and their sum, each rounded to two decimals. *)
Theorem price_at_par_date_scenario (details : bool) :
  value (bond_price_calc (Scalar 1) (Scalar 5%Q) (Scalar 1000%Q) (Scalar 6%Q)
           0 "annual" details)
  = Ok (Prices (Scalar (Fin 47.17)) (Scalar (Fin 943.40)) (Scalar (Fin 990.57))) /\
  np_round2 (Fin (50 * ((1 - 1 / (1 + 0.06) ^ 1) / 0.06))) = Fin 47.17 /\
  np_round2 (Fin (1000 * (1 / (1 + 0.06) ^ 1))) = Fin 943.40 /\
  np_round2 (Fin (47.17 + 943.40)) = Fin 990.57.
Proof.
  repeat split; try (vm_compute; reflexivity).
  destruct details; vm_compute; reflexivity.
Qed.




(** C3, as stated, fails: with tenor 10, coupon rate 5, par value 1000
    and required yield 0 the returned coupon present value is nan, not
    the coupon amount 50 times the tenor 10. *)
Lemma zero_yield_coupon_pv_is_nan :
  value (bond_price_calc (Scalar 10) (Scalar 5%Q) (Scalar 1000%Q) (Scalar 0%Q)
           0 "annual" false)
  = Ok (Prices (Scalar NaN) (Scalar (Fin 1000.00)) (Scalar NaN)) /\
  ~ (NaN =f= Fin (50 * 10)).
Proof.
  split.
  - vm_compute. reflexivity.
  - intros H. exact H.
Qed.

(** C3, amended. For every tenor, coupon rate, par value and call
    value, and a recognised frequency, bond_price_calc at the required
    yield 0 raises no exception and returns nan as the coupon present
    value and as the total (the annuity factor is 0/0, there is no
    special case), and the rounded redemption amount as the redemption
    present value. *)
Theorem zero_yield_returns_nan (bond_len : Z) (coupon_per par_val call_val : Q)
  (len_time : string) (details : bool) :
  valid_len_time len_time = true ->
  exists pp,
    value (bond_price_calc (Scalar bond_len) (Scalar coupon_per) (Scalar par_val)
             (Scalar 0%Q) call_val len_time details)
    = Ok (Prices (Scalar NaN) (Scalar pp) (Scalar NaN)) /\
    pp =f= np_round2 (Fin (redemption_of par_val call_val)).
Proof.
  intros Hv. rewrite bond_price_calc_scalar by exact Hv.
  unfold grid_price_at.
  destruct (price_at_zero_yield
              (bond_len * period_of len_time)
              (coupon_pay_of coupon_per par_val len_time)
              (redemption_of par_val call_val)
              (rate_format (0 / inject_Z (period_of len_time))))
    as (pp & -> & Hpp).
  - destruct (period_of_valid len_time Hv) as [-> | ->]; reflexivity.
  - exists pp. split; [reflexivity|exact Hpp].
Qed.

Lemma zero_yield_returns_nan_witness :
  valid_len_time "semiannual" = true /\
  exists pp,
    value (bond_price_calc (Scalar 10) (Scalar 5%Q) (Scalar 1000%Q)
             (Scalar 0%Q) 0 "semiannual" true)
    = Ok (Prices (Scalar NaN) (Scalar pp) (Scalar NaN)) /\
    pp =f= np_round2 (Fin (redemption_of 1000 0)).
Proof.
  split.
  - reflexivity.
  - apply (zero_yield_returns_nan 10 5 1000 0 "semiannual" true). reflexivity.
Defined.

Section CleanDirty.
Import Floats.
Set Warnings "-inexact-float".




End CleanDirty.

(** C5. Round trip: the bond with tenor 10, coupon rate 0.05, par value
    1000 and annual frequency is priced 926.39 at the yield 0.06, and
    the solver applied to that price returns a yield within 0.0001 of
    0.06. *)
Theorem round_trip_ytm (details : bool) :
  value (bond_price_calc (Scalar 10) (Scalar 0.05%Q) (Scalar 1000%Q) (Scalar 0.06%Q)
           0 "annual" details)
  = Ok (Prices (Scalar (Fin 368.00)) (Scalar (Fin 558.39)) (Scalar (Fin 926.39))) /\
  exists y,
    value (bond_yield_maturity_calc (Scalar 10) (Scalar 0.05%Q) 926.39 (Scalar 1000%Q)
             0 "annual" details) = Ok y /\
    (Qabs (y - 0.06) <= 0.0001)%Q.
Proof.
  split.
  - destruct details; vm_compute; reflexivity.
  - exists (nth 5 req_yield_pers 0%Q). split.
    + apply solver_first_exact_match. exact first_match_10_5_1000.
    + vm_compute. discriminate.
Qed.



(** C7, on a failing input. For the bond with tenor 10, coupon rate 5,
    par value 1000 and annual frequency every grid price is below 12000;
    with the observed price 12000 the search returns the length of the
    sorted price array, indexing it raises IndexError inside the except
    clause, and the solver returns nothing. *)
Theorem solve_ytm_above_range_raises (details : bool) :
  value (bond_yield_maturity_calc (Scalar 10) (Scalar 5%Q) 12000 (Scalar 1000%Q)
           0 "annual" details)
  = Raise IndexError.
Proof.
  apply solver_above_range; try reflexivity; try lia;
    vm_compute; discriminate.
Qed.

(** C8, on a failing input. For maturity 2020-01-01 and settlement
    2021-01-01 time_ratio_calc returns its date-order message, and
    bond_price_calc_sett returns the one-character string "S", the
    first character of that message, not the message. *)
Theorem sett_date_order_message_truncated (power : F -> F -> F)
  (coupon_per par_val req_yield_per : Q) (details : bool) :
  let mat_date := days_from_civil 2020 1 1 in
  let sett_date := days_from_civil 2021 1 1 in
  time_ratio_calc mat_date sett_date 2 "3060" "semiannual"
  = RMsg "Settlement cannot come after maturity of bond!" /\
  bond_price_calc_sett power (mat_date, sett_date) coupon_per par_val
    req_yield_per "clean" "3060" "semiannual" details
  = ret (SMsg "S") /\
  "S"%string <> "Settlement cannot come after maturity of bond!"%string.
Proof.
  intros mat_date sett_date. split; [reflexivity|]. split.
  - apply sett_date_order; try reflexivity. vm_compute. discriminate.
  - discriminate.
Qed.

(** C9, on a failing input. With one-element arrays as arguments,
    bond_cash_flow_calc with details set raises TypeError (the report
    formats a 1-d array with ':.2f'), while without details it returns
    the cash flows. *)
Theorem details_flag_changes_outcome :
  value (bond_cash_flow_calc (Vec [10]) (Vec [5%Q]) (Vec [1000%Q]) "annual" true)
  = Raise TypeError /\
  value (bond_cash_flow_calc (Vec [10]) (Vec [5%Q]) (Vec [1000%Q]) "annual" false)
  = Ok (CashFlow (Vec [50.00%Q]) (Vec [1000%Q]) (Vec [10])).
Proof. split; vm_compute; reflexivity. Qed.

(** C10. On every input the solver equals the variant whose try
    statement is replaced by the body of the except clause: the try
    body always raises (the shape of the 1-d index array has one entry,
    so [shape[1]] is an IndexError), hence the result, the exception and
    the report are those of the nearest-match computation. *)
Theorem solve_ytm_is_nearest_match (bond_len : nd Z) (coupon_per : nd Q)
  (bond_price : Q) (par_val : nd Q) (call_val : Q) (len_time : string)
  (details : bool) :
  bond_yield_maturity_calc bond_len coupon_per bond_price par_val call_val
    len_time details
  = bond_yield_maturity_calc_nearest bond_len coupon_per bond_price par_val
      call_val len_time details.
Proof.
  unfold bond_yield_maturity_calc, bond_yield_maturity_calc_nearest.
  destruct (bond_price_calc bond_len coupon_per par_val (Vec req_yield_pers)
              call_val len_time false) as [out [r|e]]; [|reflexivity].
  cbn [bind].
  destruct (price_index2 r) as [out' [bp|e]]; [|reflexivity].
  cbn [bind]. rewrite try_nearest_match. reflexivity.
Qed.

(** * Further properties of the code *)

(** ** bond_cash_flow_calc *)

(** X1. Without the report, bond_cash_flow_calc never raises.  For
    tenors between -2^62 and 2^62 (their product with the periods per
    year fits int64) it returns 'Incorrect argument dimensions' exactly
    when the sizes of the three arguments differ, 'Incorrect period
    length description' when the sizes agree and the frequency is not
    recognised, and otherwise a triple: the par value as given, the
    tenor multiplied by the periods per year, and coupon amounts of the
    size of the tenor. *)
Theorem cash_flow_without_details (bond_len : nd Z) (coupon_per par_val : nd Q)
  (len_time : string) :
  nd_Forall (fun n => - 2 ^ 62 <= n < 2 ^ 62) bond_len ->
  exists r,
    bond_cash_flow_calc bond_len coupon_per par_val len_time false = ret r /\
    match r with
    | CFMsg s =>
        (sizes_agree bond_len coupon_per par_val = false /\
         s = "Incorrect argument dimensions"%string) \/
        (sizes_agree bond_len coupon_per par_val = true /\
         valid_len_time len_time = false /\
         s = "Incorrect period length description"%string)
    | CashFlow coupon_pay par bond_len' =>
        sizes_agree bond_len coupon_per par_val = true /\
        valid_len_time len_time = true /\
        par = par_val /\
        bond_len' = ndmap (fun n => n * period_of len_time) bond_len /\
        nd_Forall (fun n => - 2 ^ 63 <= n < 2 ^ 63) bond_len' /\
        size coupon_pay = size bond_len
    end.
Proof.
  intros Hr.
  destruct (cash_flow_outcome bond_len coupon_per par_val len_time) as (r & E & H).
  exists r. split; [exact E|].
  destruct r as [s|cp par bl]; [exact H|].
  destruct H as (H1 & Hv & H3 & H4 & H5).
  repeat (split; [assumption|]).
  split; [|exact H5].
  rewrite H4. revert Hr. apply nd_Forall_ndmap.
  intros n Hn. destruct (period_of_valid len_time Hv) as [-> | ->]; lia.
Qed.

Lemma cash_flow_without_details_witness :
  exists r,
    bond_cash_flow_calc (Vec [5; 10]) (Vec [5; 6]%Q) (Vec [1000; 1000]%Q)
      "semiannual" false = ret r /\
    match r with
    | CFMsg s =>
        (sizes_agree (Vec [5; 10]) (Vec [5; 6]%Q) (Vec [1000; 1000]%Q) = false /\
         s = "Incorrect argument dimensions"%string) \/
        (sizes_agree (Vec [5; 10]) (Vec [5; 6]%Q) (Vec [1000; 1000]%Q) = true /\
         valid_len_time "semiannual" = false /\
         s = "Incorrect period length description"%string)
    | CashFlow coupon_pay par bond_len' =>
        sizes_agree (Vec [5; 10]) (Vec [5; 6]%Q) (Vec [1000; 1000]%Q) = true /\
        valid_len_time "semiannual" = true /\
        par = Vec [1000; 1000]%Q /\
        bond_len' = ndmap (fun n => n * period_of "semiannual") (Vec [5; 10]) /\
        nd_Forall (fun n => - 2 ^ 63 <= n < 2 ^ 63) bond_len' /\
        size coupon_pay = size (Vec [5; 10])
    end.
Proof.
  apply (cash_flow_without_details (Vec [5; 10]) (Vec [5; 6]%Q) (Vec [1000; 1000]%Q)
           "semiannual").
  cbn [nd_Forall]. repeat constructor; lia.
Defined.

(** X2. With the report, bond_cash_flow_calc raises TypeError
    exactly when the sizes agree, the frequency is recognised, the size
    is 1 and the coupon rate or the par value is a 1-d array (the report
    formats it with ':.2f'); in every other case its result is the one
    of the call without the report. *)
Theorem cash_flow_details_outcome (bond_len : nd Z) (coupon_per par_val : nd Q)
  (len_time : string) :
  value (bond_cash_flow_calc bond_len coupon_per par_val len_time true)
  = if (sizes_agree bond_len coupon_per par_val && valid_len_time len_time
        && Nat.eqb (size bond_len) 1 && (is_1d coupon_per || is_1d par_val))%bool
    then Raise TypeError
    else value (bond_cash_flow_calc bond_len coupon_per par_val len_time false).
Proof.
  unfold bond_cash_flow_calc. rewrite dims_split.
  destruct (sizes_agree bond_len coupon_per par_val) eqn:Hs; cbn [negb andb];
    [|reflexivity].
  fold (valid_len_time len_time).
  destruct (valid_len_time len_time) eqn:Hv; cbn [negb andb]; [|reflexivity].
  unfold sizes_agree in Hs. apply andb_true_iff in Hs. destruct Hs as [H1 H2].
  apply Nat.eqb_eq in H1, H2.
  set (k := if String.eqb (lower len_time) "semiannual" then 2 else 1).
  destruct (broadcast2_shape Qmult par_val
              (ndmap rate_format (ndmap (fun c => (c / inject_Z k)%Q) coupon_per)))
    as (z & -> & Hz & Hd).
  { rewrite !size_ndmap. congruence. }
  rewrite !is_1d_ndmap in Hd.
  rewrite !bind_ret. rewrite size_ndmap.
  destruct (Nat.eqb (size bond_len) 1); cbn [andb].
  - destruct z, par_val, coupon_per; cbn [is_1d orb] in *;
      try discriminate; reflexivity.
  - reflexivity.
Qed.

(** ** bond_price_calc *)

(** X3. bond_price_calc does not check the length of the yields.
    For bond arrays of one common length m and an array of k yields,
    with k and m different from each other and from 1, and a recognised
    frequency, the call raises ValueError (the arrays do not broadcast)
    where a mismatch among the bond arrays returns a message. *)
Theorem price_yield_length_unchecked (ns : list Z) (cs ps ys : list Q)
  (call_val : Q) (len_time : string) :
  valid_len_time len_time = true ->
  List.length ns = List.length cs -> List.length cs = List.length ps ->
  List.length ys <> List.length ns ->
  List.length ys <> 1%nat -> List.length ns <> 1%nat ->
  bond_price_calc (Vec ns) (Vec cs) (Vec ps) (Vec ys) call_val len_time false
  = raise ValueError.
Proof.
  intros Hv H1 H2 Hk Hk1 Hm1. unfold bond_price_calc.
  cbn [size]. rewrite H1, H2, !Nat.eqb_refl. cbn [negb orb].
  unfold valid_len_time in Hv. rewrite Hv. cbn [negb].
  fold (period_of len_time). cbn [ndmap].
  destruct (cash_flow_annual_ok
              (Vec (map (fun n => n * period_of len_time) ns))
              (Vec (map rate_format
                      (map (fun c => (c / inject_Z (period_of len_time))%Q) cs)))
              (Vec ps)) as (z & ->).
  { unfold sizes_agree. cbn [size]. rewrite !length_map, H1, H2, !Nat.eqb_refl.
    reflexivity. }
  rewrite bind_ret.
  unfold present_values, discount_factor. cbn [ndmap].
  rewrite broadcast2_mismatch; rewrite ?length_map; auto.
Qed.

Lemma price_yield_length_unchecked_witness :
  bond_price_calc (Vec [5; 10; 20]) (Vec [5; 5; 5]%Q) (Vec [1000; 1000; 1000]%Q)
    (Vec [5; 6]%Q) 0 "annual" false
  = raise ValueError.
Proof.
  apply price_yield_length_unchecked; try reflexivity; simpl; lia.
Defined.

(** X6. A positive call value replaces the par value in
    the redemption present value only: the coupon present value is the
    one of the call with call value 0, and the redemption present value
    is the one of a bond whose par value is the call value, whatever its
    coupon rate. *)
Theorem call_value_replaces_redemption_only (bond_len : Z) (coupon_per par_val
  req_yield_per call_val other_coupon : Q) (len_time : string) (details : bool) :
  valid_len_time len_time = true ->
  (0 < call_val)%Q ->
  exists cp pp total pp0 total0 cp1 total1,
    value (bond_price_calc (Scalar bond_len) (Scalar coupon_per) (Scalar par_val)
             (Scalar req_yield_per) call_val len_time details)
    = Ok (Prices (Scalar cp) (Scalar pp) (Scalar total)) /\
    value (bond_price_calc (Scalar bond_len) (Scalar coupon_per) (Scalar par_val)
             (Scalar req_yield_per) 0 len_time details)
    = Ok (Prices (Scalar cp) (Scalar pp0) (Scalar total0)) /\
    value (bond_price_calc (Scalar bond_len) (Scalar other_coupon) (Scalar call_val)
             (Scalar req_yield_per) 0 len_time details)
    = Ok (Prices (Scalar cp1) (Scalar pp) (Scalar total1)).
Proof.
  intros Hv Hcall. rewrite !bond_price_calc_scalar by exact Hv.
  unfold grid_price_at, price_at. cbv zeta.
  rewrite (redemption_of_call par_val call_val Hcall).
  rewrite (redemption_of_no_call par_val 0) by apply Qle_refl.
  rewrite (redemption_of_no_call call_val 0) by apply Qle_refl.
  do 7 eexists. repeat split; reflexivity.
Qed.

Lemma call_value_replaces_redemption_only_witness :
  exists cp pp total pp0 total0 cp1 total1,
    value (bond_price_calc (Scalar 5) (Scalar 5%Q) (Scalar 1000%Q)
             (Scalar 6%Q) 1050 "annual" false)
    = Ok (Prices (Scalar cp) (Scalar pp) (Scalar total)) /\
    value (bond_price_calc (Scalar 5) (Scalar 5%Q) (Scalar 1000%Q)
             (Scalar 6%Q) 0 "annual" false)
    = Ok (Prices (Scalar cp) (Scalar pp0) (Scalar total0)) /\
    value (bond_price_calc (Scalar 5) (Scalar 0%Q) (Scalar 1050%Q)
             (Scalar 6%Q) 0 "annual" false)
    = Ok (Prices (Scalar cp1) (Scalar pp) (Scalar total1)).
Proof.
  apply (call_value_replaces_redemption_only 5 5 1000 6 1050 0 "annual" false);
    reflexivity.
Defined.

(** X7. With one bond and an array of yields, bond_price_calc
    (without the report) returns three arrays of the length of the
    yields, and their entries at each position are the three values
    that the call with that single yield returns. *)
Theorem yields_priced_one_by_one (bond_len : Z) (coupon_per par_val call_val : Q)
  (len_time : string) (ys : list Q) :
  valid_len_time len_time = true ->
  exists cps pps totals,
    bond_price_calc (Scalar bond_len) (Scalar coupon_per) (Scalar par_val) (Vec ys)
      call_val len_time false
    = ret (Prices (Vec cps) (Vec pps) (Vec totals)) /\
    List.length cps = List.length ys /\
    List.length pps = List.length ys /\
    List.length totals = List.length ys /\
    forall (i : nat) (details : bool), (i < List.length ys)%nat ->
      value (bond_price_calc (Scalar bond_len) (Scalar coupon_per) (Scalar par_val)
               (Scalar (nth i ys 0%Q)) call_val len_time details)
      = Ok (Prices (Scalar (nth i cps NaN)) (Scalar (nth i pps NaN))
                   (Scalar (nth i totals NaN))).
Proof.
  intros Hv. rewrite bond_price_calc_vec by exact Hv.
  do 3 eexists. split; [reflexivity|].
  rewrite !length_map. repeat split; auto.
  intros i details Hi.
  rewrite bond_price_calc_scalar by exact Hv.
  set (g := grid_price_at bond_len coupon_per par_val call_val len_time).
  rewrite (nth_indep (map (fun y => fst (fst (g y))) ys) NaN
             (fst (fst (g 0%Q)))) by (rewrite length_map; exact Hi).
  rewrite (nth_indep (map (fun y => snd (fst (g y))) ys) NaN
             (snd (fst (g 0%Q)))) by (rewrite length_map; exact Hi).
  rewrite (nth_indep (map (fun y => snd (g y)) ys) NaN
             (snd (g 0%Q))) by (rewrite length_map; exact Hi).
  rewrite (map_nth (fun y => fst (fst (g y)))).
  rewrite (map_nth (fun y => snd (fst (g y)))).
  rewrite (map_nth (fun y => snd (g y))).
  destruct (g (nth i ys 0%Q)) as [[a b] t]. reflexivity.
Qed.

Lemma yields_priced_one_by_one_witness :
  exists cps pps totals,
    bond_price_calc (Scalar 10) (Scalar 5%Q) (Scalar 1000%Q) (Vec [4; 5; 6]%Q)
      0 "annual" false
    = ret (Prices (Vec cps) (Vec pps) (Vec totals)) /\
    List.length cps = 3%nat /\
    List.length pps = 3%nat /\
    List.length totals = 3%nat /\
    forall (i : nat) (details : bool), (i < 3)%nat ->
      value (bond_price_calc (Scalar 10) (Scalar 5%Q) (Scalar 1000%Q)
               (Scalar (nth i [4; 5; 6]%Q 0%Q)) 0 "annual" details)
      = Ok (Prices (Scalar (nth i cps NaN)) (Scalar (nth i pps NaN))
                   (Scalar (nth i totals NaN))).
Proof.
  apply (yields_priced_one_by_one 10 5 1000 0 "annual" [4; 5; 6]%Q). reflexivity.
Defined.

(** ** Messages and reports *)

(** X9. Whenever bond_cash_flow_calc, bond_price_calc or
    bond_price_calc_sett returns a message instead of numbers, nothing
    has been printed, with or without the report. *)
Theorem messages_come_without_output :
  (forall bond_len coupon_per par_val len_time details,
     silent_message is_cf_msg
       (bond_cash_flow_calc bond_len coupon_per par_val len_time details)) /\
  (forall bond_len coupon_per par_val req_yield_per call_val len_time details,
     silent_message is_price_msg
       (bond_price_calc bond_len coupon_per par_val req_yield_per call_val
          len_time details)) /\
  (forall power dates coupon_per par_val req_yield_per price date_calc len_time
          details,
     silent_message is_sett_msg
       (bond_price_calc_sett power dates coupon_per par_val req_yield_per price
          date_calc len_time details)).
Proof.
  split; [|split]; intros.
  - apply cash_flow_message_silent.
  - apply price_message_silent.
  - apply sett_message_silent.
Qed.

(** X10. For bond_yield_maturity_calc, for bond_price_calc_sett and
    for bond_price_calc on scalar arguments, the report flag changes
    neither the returned value nor the exception raised. *)
Theorem report_flag_keeps_result :
  (forall bond_len coupon_per bond_price par_val call_val len_time,
     value (bond_yield_maturity_calc bond_len coupon_per bond_price par_val
              call_val len_time true)
     = value (bond_yield_maturity_calc bond_len coupon_per bond_price par_val
                call_val len_time false)) /\
  (forall power dates coupon_per par_val req_yield_per price date_calc len_time,
     value (bond_price_calc_sett power dates coupon_per par_val req_yield_per price
              date_calc len_time true)
     = value (bond_price_calc_sett power dates coupon_per par_val req_yield_per
                price date_calc len_time false)) /\
  (forall bond_len coupon_per par_val req_yield_per call_val len_time,
     value (bond_price_calc (Scalar bond_len) (Scalar coupon_per) (Scalar par_val)
              (Scalar req_yield_per) call_val len_time true)
     = value (bond_price_calc (Scalar bond_len) (Scalar coupon_per) (Scalar par_val)
                (Scalar req_yield_per) call_val len_time false)).
Proof.
  split; [|split]; intros.
  - apply solver_details.
  - apply sett_details.
  - destruct (valid_len_time len_time) eqn:Hv.
    + rewrite !bond_price_calc_scalar by exact Hv. reflexivity.
    + unfold bond_price_calc. cbn [size Nat.eqb negb orb].
      unfold valid_len_time in Hv. rewrite Hv. reflexivity.
Qed.

(** ** Day counts *)

(** X11. For a positive period length in months,
    next_pay_date_calc returns a month offset between 0 and the period
    length and, as next payment date, the first day of the month that
    many months after the month of the settlement date; this date is
    never the settlement date itself. *)
Theorem next_pay_date_is_a_month_start (sd1 md2 period : Z) :
  0 < period ->
  exists next_pay_date days_remaining time_diff,
    next_pay_date_calc sd1 md2 period = (next_pay_date, days_remaining, time_diff) /\
    0 <= time_diff <= period /\
    to_month next_pay_date = to_month sd1 + time_diff /\
    month_to_day (to_month next_pay_date) = next_pay_date /\
    next_pay_date <> sd1.
Proof.
  intros Hp. unfold next_pay_date_calc. cbv zeta.
  pose proof (next_pay_not_settlement sd1 (days_to_months (md2 - sd1)) period Hp)
    as Hn.
  pose proof (Z.mod_pos_bound (days_to_months (md2 - sd1)) period Hp) as Hm.
  set (dr := month_to_day (to_month sd1 + 1) - 1 - sd1) in *.
  set (td := if dr >? 0 then _ else _) in *.
  exists (month_to_day (to_month sd1 + td)), dr, td.
  destruct (month_facts (to_month sd1 + td)) as [Hrt _].
  split; [reflexivity|]. split.
  - subst td. destruct (dr >? 0); lia.
  - split; [exact Hrt|]. split.
    + rewrite Hrt. reflexivity.
    + lia.
Qed.

Lemma next_pay_date_is_a_month_start_witness :
  exists next_pay_date days_remaining time_diff,
    next_pay_date_calc (days_from_civil 2020 3 10) (days_from_civil 2025 6 15) 6
    = (next_pay_date, days_remaining, time_diff) /\
    0 <= time_diff <= 6 /\
    to_month next_pay_date = to_month (days_from_civil 2020 3 10) + time_diff /\
    month_to_day (to_month next_pay_date) = next_pay_date /\
    next_pay_date <> days_from_civil 2020 3 10.
Proof.
  apply (next_pay_date_is_a_month_start (days_from_civil 2020 3 10)
           (days_from_civil 2025 6 15) 6).
  lia.
Defined.





(** ** bond_price_calc_sett *)

(** X14. The day count is validated in lower case but selected
    by exact comparison.  For every day-count string other than '3060'
    and 'actual' (so also for 'ACTUAL'), with a recognised frequency and
    price basis and a settlement date before maturity, time_ratio_calc
    returns one of its two 'Incorrect ...' messages and
    bond_price_calc_sett returns the one-character string 'I'. *)
Theorem unknown_day_count_returns_I (power : F -> F -> F) (mat_date sett_date : Z)
  (coupon_per par_val req_yield_per : Q) (price date_calc len_time : string)
  (details : bool) :
  valid_len_time len_time = true ->
  valid_price price = true ->
  sett_date < mat_date ->
  date_calc <> "3060"%string ->
  date_calc <> "actual"%string ->
  (time_ratio_calc mat_date sett_date (period_of len_time) date_calc len_time
   = RMsg "Incorrect description for timing calculation" \/
   time_ratio_calc mat_date sett_date (period_of len_time) date_calc len_time
   = RMsg "Incorrect timing calculated") /\
  bond_price_calc_sett power (mat_date, sett_date) coupon_per par_val
    req_yield_per price date_calc len_time details
  = ret (SMsg "I").
Proof.
  intros Hv Hp Hlt H1 H2.
  apply String.eqb_neq in H1. apply String.eqb_neq in H2.
  destruct (String.eqb (lower date_calc) "3060" || String.eqb (lower date_calc) "actual")%bool
    eqn:Hdc.
  - destruct (time_ratio_calc_split mat_date sett_date (period_of len_time) date_calc
                len_time (period_of_valid len_time Hv) Hlt Hdc)
      as (q1 & a1 & q2 & a2 & _ & _ & _ & _ & E).
    rewrite H1, H2 in E. cbn in E.
    split; [right; exact E|].
    eapply sett_ratio_message; eauto.
  - assert (E : time_ratio_calc mat_date sett_date (period_of len_time) date_calc
                  len_time
                = RMsg "Incorrect description for timing calculation").
    { unfold time_ratio_calc.
      apply Z.ltb_lt in Hlt. rewrite Z.leb_antisym, Hlt. cbn [negb].
      rewrite Hdc. reflexivity. }
    split; [left; exact E|].
    eapply sett_ratio_message; eauto.
Qed.

Lemma unknown_day_count_returns_I_witness :
  bond_price_calc_sett power_rat
    (days_from_civil 2025 6 15, days_from_civil 2020 3 10) 5 1000 6 "clean" "ACTUAL"
    "semiannual" true
  = ret (SMsg "I").
Proof.
  apply (unknown_day_count_returns_I power_rat (days_from_civil 2025 6 15)
           (days_from_civil 2020 3 10) 5 1000 6 "clean" "ACTUAL" "semiannual" true).
  - reflexivity.
  - reflexivity.
  - vm_compute. reflexivity.
  - discriminate.
  - discriminate.
Defined.

(** X15. With the day count '3060', a settlement on the 31st
    that is the last day of its month (days_passed 31, days_remaining 0)
    and a whole number of months to maturity that leaves remainder 1
    modulo the period length, the time ratio is 0: time_ratio_calc
    returns 'Incorrect timing calculated' and bond_price_calc_sett
    returns 'I'. *)
Theorem thirty_first_one_month_over (power : F -> F -> F) (mat_date sett_date : Z)
  (coupon_per par_val req_yield_per : Q) (price len_time : string)
  (details : bool) :
  valid_len_time len_time = true ->
  valid_price price = true ->
  sett_date < mat_date ->
  sett_date - (month_to_day (to_month sett_date) - 1) = 31 ->
  month_to_day (to_month sett_date + 1) - 1 - sett_date = 0 ->
  days_to_months (mat_date - sett_date) mod (12 / period_of len_time) = 1 ->
  time_ratio_calc mat_date sett_date (period_of len_time) "3060" len_time
  = RMsg "Incorrect timing calculated" /\
  bond_price_calc_sett power (mat_date, sett_date) coupon_per par_val
    req_yield_per price "3060" len_time details
  = ret (SMsg "I").
Proof.
  intros Hv Hp Hlt Hdp Hdr Hm.
  assert (E : time_ratio_calc mat_date sett_date (period_of len_time) "3060" len_time
              = RMsg "Incorrect timing calculated").
  { destruct (time_ratio_calc_split mat_date sett_date (period_of len_time) "3060"
                len_time (period_of_valid len_time Hv) Hlt eq_refl)
      as (q1 & a1 & q2 & a2 & _ & _ & _ & Hz & E).
    rewrite E. clear E.
    change (String.eqb "3060" "3060") with true.
    change (String.eqb "3060" "actual") with false.
    cbn [Fadd Feqb].
    rewrite Hdr, Hdp, Hm in Hz.
    assert (Hq : (q1 == 0)%Q) by (apply Hz; reflexivity).
    assert (Hb : Qeq_bool (q1 + 0) 0 = true) by (apply Qeq_bool_iff; lra).
    rewrite Hb. reflexivity. }
  split; [exact E|].
  eapply sett_ratio_message; eauto.
Qed.

Lemma thirty_first_one_month_over_witness :
  bond_price_calc_sett power_rat
    (days_from_civil 2020 3 5, days_from_civil 2020 1 31) 5 1000 6 "dirty" "3060"
    "semiannual" false
  = ret (SMsg "I").
Proof.
  apply (thirty_first_one_month_over power_rat (days_from_civil 2020 3 5)
           (days_from_civil 2020 1 31) 5 1000 6 "dirty" "semiannual" false);
    vm_compute; reflexivity.
Defined.

(** X16. When the days from settlement to maturity convert to
    0 whole months and the time ratio is not an integer,
    bond_price_calc_sett builds empty arrays of periods and payments and
    raises IndexError at the first payment. *)
Theorem less_than_a_month_raises (power : F -> F -> F) (mat_date sett_date : Z)
  (coupon_per par_val req_yield_per : Q) (price date_calc len_time : string)
  (details : bool) (time_ratio ai_ratio : F) :
  valid_len_time len_time = true ->
  valid_price price = true ->
  time_ratio_calc mat_date sett_date (period_of len_time) date_calc len_time
  = Ratios time_ratio ai_ratio ->
  is_integer time_ratio = false ->
  days_to_months (mat_date - sett_date) = 0 ->
  value (bond_price_calc_sett power (mat_date, sett_date) coupon_per par_val
           req_yield_per price date_calc len_time details)
  = Raise IndexError.
Proof.
  intros Hv Hp H Hi Hm. unfold bond_price_calc_sett.
  unfold valid_len_time in Hv. unfold valid_price in Hp.
  rewrite Hv, Hp. cbn [negb fst snd].
  fold (period_of len_time). rewrite H.
  cbn [ratio_index Nat.eqb]. rewrite !bind_ret.
  rewrite Hm, Hi. change (- (- 0 / (12 / period_of len_time))) with 0.
  destruct (bond_cash_flow_calc_annual 0
              (rate_format (coupon_per / inject_Z (period_of len_time))) par_val
              details) as [out ->].
  reflexivity.
Qed.

Lemma less_than_a_month_raises_witness :
  value (bond_price_calc_sett power_rat
           (days_from_civil 2020 3 25, days_from_civil 2020 3 10) 5 1000 6 "clean"
           "3060" "semiannual" true)
  = Raise IndexError.
Proof.
  apply (less_than_a_month_raises power_rat (days_from_civil 2020 3 25)
           (days_from_civil 2020 3 10) 5 1000 6 "clean" "3060" "semiannual" true
           (Fin (21 # 180)) (Fin (159 # 180)));
    vm_compute; reflexivity.
Defined.

(** ** bond_yield_maturity_calc *)



(** X18. For a non-negative tenor, coupon amount and redemption
    amount, an observed price above 200 coupon amounts plus the
    redemption amount plus 0.04 is above every grid price, and
    bond_yield_maturity_calc raises IndexError. *)
Theorem observed_price_above_bound_raises (bond_len : Z)
  (coupon_per bond_price par_val call_val : Q) (len_time : string) (details : bool) :
  valid_len_time len_time = true ->
  0 <= bond_len ->
  (0 <= coupon_pay_of coupon_per par_val len_time)%Q ->
  (0 <= redemption_of par_val call_val)%Q ->
  (200 * coupon_pay_of coupon_per par_val len_time
   + redemption_of par_val call_val + 0.04 < bond_price)%Q ->
  value (bond_yield_maturity_calc (Scalar bond_len) (Scalar coupon_per) bond_price
           (Scalar par_val) call_val len_time details)
  = Raise IndexError.
Proof. apply solver_above_range. Qed.

Lemma observed_price_above_bound_raises_witness :
  value (bond_yield_maturity_calc (Scalar 20) (Scalar 4%Q) 9001 (Scalar 1000%Q)
           0 "semiannual" true)
  = Raise IndexError.
Proof.
  apply (observed_price_above_bound_raises 20 4 9001 1000 0 "semiannual" true).
  - reflexivity.
  - lia.
  - vm_compute. discriminate.
  - vm_compute. discriminate.
  - vm_compute. reflexivity.
Defined.

(** X19. When the sizes of the bond arguments differ or the
    frequency is not recognised, bond_price_calc returns a message, the
    solver takes its third character for the price array, and
    bond_yield_maturity_calc raises AttributeError without printing. *)
Theorem solver_message_becomes_attribute_error (bond_len : nd Z) (coupon_per : nd Q)
  (bond_price : Q) (par_val : nd Q) (call_val : Q) (len_time : string)
  (details : bool) :
  sizes_agree bond_len coupon_per par_val = false \/
  valid_len_time len_time = false ->
  bond_yield_maturity_calc bond_len coupon_per bond_price par_val call_val len_time
    details
  = raise AttributeError.
Proof.
  intros H.
  assert (E : exists s,
             bond_price_calc bond_len coupon_per par_val (Vec req_yield_pers) call_val
               len_time false = ret (PMsg s) /\
             str_index s 2 = ret "c"%string).
  { unfold bond_price_calc.
    destruct (_ || _)%bool eqn:G; [eexists; split; reflexivity|].
    destruct H as [H|H].
    - unfold sizes_agree in H. rewrite <- negb_andb, H in G. discriminate.
    - unfold valid_len_time in H. rewrite H. eexists; split; reflexivity. }
  destruct E as (s & E1 & E2).
  unfold bond_yield_maturity_calc. rewrite E1, bind_ret.
  cbn [price_index2]. rewrite E2, !bind_ret.
  rewrite try_nearest_match. reflexivity.
Qed.

Lemma solver_message_becomes_attribute_error_witness :
  bond_yield_maturity_calc (Scalar 10) (Scalar 5%Q) 950 (Scalar 1000%Q) 0
    "quarterly" true
  = raise AttributeError.
Proof.
  apply (solver_message_becomes_attribute_error (Scalar 10) (Scalar 5%Q) 950
           (Scalar 1000%Q) 0 "quarterly" true).
  right. reflexivity.
Defined.

